(** * photo-report: report lines, location labels and the worksheet run

    A shallow embedding of [main.py].  The program reads a text report,
    turns each matching line into an [Entry], finds the worksheet, row
    and column each entry belongs to and writes the photo count there
    with a colour that depends on the count.

    Text is modelled as lists of ASCII characters (the classes [\s],
    [\d], [\w] and case folding are the ASCII ones); the two compiled
    patterns of the program ([LINE_RE], [LOC_STRICT_RE]) and the inline
    header pattern are values of a small regular-expression syntax, run
    by a backtracking matcher that lists the successes in the order in
    which Python's [re] explores them. *)

From Stdlib Require Import ZArith List Ascii String Bool Lia.
From stdpp Require Import base option list gmap strings fin_maps.

Local Open Scope Z_scope.
Local Open Scope list_scope.

(** ** Python values and exceptions *)

Abbreviation str := (list ascii).

(** A string literal of the source, as a list of characters. *)
Definition lit (s : string) : str := list_ascii_of_string s.

(** The exceptions the modelled functions could raise. *)
Inductive pyexn :=
| ValueError
| TypeError
| StopIteration
| AttributeError.

(** The outcome of a call: a value or a raised exception. *)
Inductive result (A : Type) :=
| Ok (a : A)
| Raised (e : pyexn).
Arguments Ok {A} a.
Arguments Raised {A} e.

#[global] Instance pyexn_eq_dec : EqDecision pyexn.
Proof. solve_decision. Defined.

#[global] Instance result_eq_dec {A} `{EqDecision A} : EqDecision (result A).
Proof. solve_decision. Defined.

Definition rbind {A B} (x : result A) (f : A -> result B) : result B :=
  match x with
  | Ok a => f a
  | Raised e => Raised e
  end.

Notation "x <- e1 ;; e2" := (rbind e1 (fun x => e2))
  (at level 100, e1 at next level, right associativity).

(** ** Characters *)

Definition code (c : ascii) : N := N_of_ascii c.

Definition in_range (lo hi : N) (c : ascii) : bool :=
  N.leb lo (code c) && N.leb (code c) hi.

Definition is_upper (c : ascii) : bool := in_range 65 90 c.
Definition is_lower (c : ascii) : bool := in_range 97 122 c.
Definition is_digit (c : ascii) : bool := in_range 48 57 c.

(** [\s] on text: tab, line feed, vertical tab, form feed, carriage
    return, the four separators 28..31 and the space. *)
Definition is_space (c : ascii) : bool :=
  in_range 9 13 c || in_range 28 32 c.

(** [\w]: letters, digits and the underscore. *)
Definition is_word (c : ascii) : bool :=
  is_upper c || is_lower c || is_digit c || N.eqb (code c) 95.

Definition lower_char (c : ascii) : ascii :=
  if is_upper c then ascii_of_N (code c + 32) else c.

Definition upper_char (c : ascii) : ascii :=
  if is_lower c then ascii_of_N (code c - 32) else c.

(** [str.lower], [str.upper] and [str.capitalize]. *)
Definition lower (s : str) : str := map lower_char s.
Definition upper (s : str) : str := map upper_char s.
Definition capitalize (s : str) : str :=
  match s with
  | [] => []
  | c :: t => upper_char c :: lower t
  end.

Definition digit_val (c : ascii) : Z := Z.of_N (code c - 48).

(** [int(s)] on a run of decimal digits; any other text is modelled as
    the [ValueError] Python raises on text that is not a number.  The
    interpreter's configurable cap on the length of decimal text is not
    modelled: integers are unbounded. *)
Definition int_digits (s : str) : Z :=
  fold_left (fun acc c => 10 * acc + digit_val c) s 0.

Definition py_int (s : str) : result Z :=
  match s with
  | [] => Raised ValueError
  | _ => if forallb is_digit s then Ok (int_digits s) else Raised ValueError
  end.

(** [int(m.group(g))]: a group that took no part in the match is [None],
    on which [int] raises [TypeError]. *)
Definition py_int_group (g : option str) : result Z :=
  match g with
  | None => Raised TypeError
  | Some s => py_int s
  end.

(** ** Regular expressions

    The syntax covers what the three patterns of the program use: single
    characters and classes, counted and starred repetition of a single
    character item (greedy or lazy), the anchors [^] and [\b],
    sequencing, ordered alternation and named groups. *)

Module Re.

Inductive cclass :=
| CSpace                 (* \s *)
| CDigit                 (* \d *)
| CUpper                 (* [A-Z] *)
| CAny                   (* .  (no DOTALL: anything but a line feed) *)
| CChar (c : ascii).     (* a literal character *)

Inductive regex :=
| Eps
| Chr (k : cclass)
| Rep (greedy : bool) (lo : nat) (hi : option nat) (k : cclass)
| Bol                    (* ^ without MULTILINE *)
| WordB                  (* \b *)
| Cat (r1 r2 : regex)
| Alt (r1 r2 : regex)
| Grp (g : string) (r : regex).

(** Whether a class accepts a character; [ic] is the IGNORECASE flag. *)
Definition cmatch (ic : bool) (k : cclass) (c : ascii) : bool :=
  match k with
  | CSpace => is_space c
  | CDigit => is_digit c
  | CUpper => if ic then is_upper c || is_lower c else is_upper c
  | CAny => negb (N.eqb (code c) 10)
  | CChar x => if ic then Ascii.eqb (lower_char x) (lower_char c) else Ascii.eqb x c
  end.

(** The groups of a match in progress: name to captured text. *)
Abbreviation caps := (gmap string (list ascii)).

(** The length of the longest prefix of [s] accepted by [p], not beyond
    the bound [hi]. *)
Fixpoint span (p : ascii -> bool) (hi : option nat) (s : str) : nat :=
  match hi with
  | Some O => O
  | _ =>
    match s with
    | [] => O
    | x :: t => if p x then S (span p (pred <$> hi) t) else O
    end
  end.

(** The repetition counts tried, in order, for [lo] to [n] items:
    longest first when greedy, shortest first when lazy. *)
Definition rep_counts (greedy : bool) (lo n : nat) : list nat :=
  let up := seq lo (S n - lo) in
  if greedy then rev up else up.

(** Whether a position has a word character on a side; the ends of the
    text count as non-word. *)
Definition word_side (o : option ascii) : bool :=
  match o with
  | Some c => is_word c
  | None => false
  end.

(** [run ic r b a c]: every way [r] can match at the position whose
    left context is [b] (nearest character first) and whose right
    context is [a], with the groups [c] set so far; each success is the
    matched text, the text that remains and the groups, and the list is
    in the order of the backtracking search. *)
Fixpoint run (ic : bool) (r : regex) (b a : str) (c : caps)
  : list (str * str * caps) :=
  match r with
  | Eps => [([], a, c)]
  | Chr k =>
    match a with
    | x :: a' => if cmatch ic k x then [([x], a', c)] else []
    | [] => []
    end
  | Rep greedy lo hi k =>
    map (fun i => (take i a, drop i a, c))
        (rep_counts greedy lo (span (cmatch ic k) hi a))
  | Bol =>
    match b with
    | [] => [([], a, c)]
    | _ => []
    end
  | WordB =>
    if xorb (word_side (head b)) (word_side (head a)) then [([], a, c)] else []
  | Cat r1 r2 =>
    flat_map (fun '(m1, a1, c1) =>
      map (fun '(m2, a2, c2) => (m1 ++ m2, a2, c2))
          (run ic r2 (rev m1 ++ b) a1 c1))
      (run ic r1 b a c)
  | Alt r1 r2 => run ic r1 b a c ++ run ic r2 b a c
  | Grp g r1 =>
    map (fun '(m, a', c') => (m, a', <[g := m]> c')) (run ic r1 b a c)
  end.

(** The first success at one position. *)
Definition match_at (ic : bool) (r : regex) (b a : str) : option caps :=
  match run ic r b a ∅ with
  | [] => None
  | (_, _, c) :: _ => Some c
  end.

(** [pattern.search]: the first success at the leftmost position that
    has one. *)
Fixpoint search_from (ic : bool) (r : regex) (b a : str) : option caps :=
  match match_at ic r b a with
  | Some c => Some c
  | None =>
    match a with
    | [] => None
    | x :: a' => search_from ic r (x :: b) a'
    end
  end.

Definition search (ic : bool) (r : regex) (s : str) : option caps :=
  search_from ic r [] s.

(** [re.match]: a match at the start of the text only. *)
Definition rmatch (ic : bool) (r : regex) (s : str) : option caps :=
  match_at ic r [] s.

(** *** What a pattern matches

    [lang ic r b m a c c']: the text [m], between the left context [b]
    and the right context [a], is matched by [r], and the groups [c]
    become [c'].  This is the declarative reading of the pattern; [run]
    enumerates it. *)
Definition within (hi : option nat) (n : nat) : Prop :=
  match hi with
  | Some h => (n <= h)%nat
  | None => True
  end.

Fixpoint lang (ic : bool) (r : regex) (b m a : str) (c c' : caps) : Prop :=
  match r with
  | Eps => m = [] /\ c' = c
  | Chr k => (exists x, m = [x] /\ cmatch ic k x = true) /\ c' = c
  | Rep _ lo hi k =>
    ((lo <= length m)%nat /\ within hi (length m) /\
     Forall (fun x => cmatch ic k x = true) m) /\ c' = c
  | Bol => (m = [] /\ b = []) /\ c' = c
  | WordB => (m = [] /\ word_side (head b) <> word_side (head a)) /\ c' = c
  | Cat r1 r2 =>
    exists m1 m2 c1, m = m1 ++ m2 /\
      lang ic r1 b m1 (m2 ++ a) c c1 /\ lang ic r2 (rev m1 ++ b) m2 a c1 c'
  | Alt r1 r2 => lang ic r1 b m a c c' \/ lang ic r2 b m a c c'
  | Grp g r1 => exists c1, lang ic r1 b m a c c1 /\ c' = <[g := m]> c1
  end.

(** A literal word and a text that differ at most in case ([ic]) or not
    at all. *)
Definition same_word (ic : bool) (w m : str) : Prop :=
  Forall2 (fun x y => cmatch ic (CChar x) y = true) w m.

(** A literal word, character by character. *)
Fixpoint word (s : str) : regex :=
  match s with
  | [] => Eps
  | [x] => Chr (CChar x)
  | x :: t => Cat (Chr (CChar x)) (word t)
  end.

(** A sequence of items. *)
Fixpoint cats (rs : list regex) : regex :=
  match rs with
  | [] => Eps
  | [r] => r
  | r :: t => Cat r (cats t)
  end.

(** An ordered choice of items. *)
Fixpoint alts (r : regex) (rs : list regex) : regex :=
  match rs with
  | [] => r
  | r' :: t => Alt r (alts r' t)
  end.

Definition star (k : cclass) : regex := Rep true 0 None k.
Definition plus (k : cclass) : regex := Rep true 1 None k.
Definition lazy_star (k : cclass) : regex := Rep false 0 None k.
Definition upto (lo hi : nat) (k : cclass) : regex := Rep true lo (Some hi) k.

End Re.

Import Re.

(** ** The report parser *)

(** [Entry]: one line of the report. *)
Record Entry := {
  block : str;
  level : Z;
  side : str;      (* East/West/North/South *)
  qnum : Z;
  count : Z;
  kind : str       (* "BW" or "SR" *)
}.

Definition sides_NSEW : regex :=
  alts (word (lit "North")) [word (lit "South"); word (lit "East"); word (lit "West")].

(** [LINE_RE], compiled with IGNORECASE and VERBOSE. *)
Definition LINE_RE : regex :=
  cats [ Bol; star CSpace; Grp "count" (plus CDigit); plus CSpace;
         word (lit "pictures"); star CSpace; Chr (CChar "-"); star CSpace;
         word (lit "Block"); plus CSpace; Grp "block" (Chr CUpper); plus CSpace;
         Chr (CChar "L"); Grp "level" (upto 1 2 CDigit); plus CSpace;
         Grp "side" sides_NSEW; plus CSpace;
         Grp "kind" (alts (word (lit "BW")) [word (lit "SR")]); WordB;
         lazy_star CAny; Chr (CChar "/"); star CSpace;
         Grp "qnum" (plus CDigit); WordB ].

(** [m.group(g)] followed by a string method: on a group that took no
    part in the match the method call raises. *)
Definition group_text (m : caps) (g : string) : result str :=
  match m !! g with
  | Some s => Ok s
  | None => Raised AttributeError
  end.

(** The body of the loop of [parse_txt] for one line [raw]: the entry
    appended, if any. *)
Definition parse_line (raw : str) : result (option Entry) :=
  match search true LINE_RE raw with
  | None => Ok None
  | Some m =>
    b <- group_text m "block" ;;
    l <- py_int_group (m !! "level") ;;
    s <- group_text m "side" ;;
    q <- py_int_group (m !! "qnum") ;;
    n <- py_int_group (m !! "count") ;;
    k <- group_text m "kind" ;;
    Ok (Some {| block := upper b; level := l; side := capitalize s;
                qnum := q; count := n; kind := upper k |})
  end.

(** [parse_txt] over the lines of the file, in order. *)
Fixpoint parse_txt (lines : list str) : result (list Entry) :=
  match lines with
  | [] => Ok []
  | raw :: rest =>
    o <- parse_line raw ;;
    out <- parse_txt rest ;;
    Ok (match o with Some e => e :: out | None => out end)
  end.

(** ** Location labels *)

Inductive pyval :=
| VNone
| VBool (b : bool)
| VInt (n : Z)
| VFloat (m e : Z)
| VStr (s : str).

Abbreviation LocationKey := (str * Z * str)%type.

Definition sides_EWNS : regex :=
  alts (word (lit "East")) [word (lit "West"); word (lit "North"); word (lit "South")].

Definition GL_CLAUSE : regex :=
  Grp "gl" (cats [ WordB; upto 0 2 (CChar "0"); star CSpace; Chr (CChar "-");
                   star CSpace; word (lit "Ground"); plus CSpace;
                   word (lit "Level"); WordB ]).

Definition LVL2_CLAUSE : regex :=
  cats [ WordB; upto 1 2 CDigit; star CSpace; Chr (CChar "-"); star CSpace;
         word (lit "Level"); plus CSpace; Grp "lvl2" (upto 1 2 CDigit); WordB ].

Definition LVL1_CLAUSE : regex :=
  cats [ WordB; word (lit "Level"); plus CSpace; Grp "lvl1" (upto 1 2 CDigit); WordB ].

Definition LVL0_CLAUSE : regex :=
  cats [ WordB; Chr (CChar "L"); Grp "lvl0" (upto 1 2 CDigit); WordB ].

Definition LEVEL_CLAUSE : regex :=
  alts GL_CLAUSE [LVL2_CLAUSE; LVL1_CLAUSE; LVL0_CLAUSE].

(** The part before the level clause: [Block\s+(?P<block>[A-Z])\b]. *)
Definition LOC_HEAD : regex :=
  cats [ word (lit "Block"); plus CSpace; Grp "block" (Chr CUpper); WordB ].

(** The part after the level clause:
    [.*/\s*(?P<side>East|West|North|South)\s+Elevation\b]. *)
Definition LOC_TAIL : regex :=
  cats [ star CAny; Chr (CChar "/"); star CSpace;
         Grp "side" sides_EWNS; plus CSpace; word (lit "Elevation"); WordB ].

(** [LOC_STRICT_RE], compiled with IGNORECASE and VERBOSE: the head, the
    lazy [.*?], the level clause and the tail, in sequence. *)
Definition LOC_STRICT_RE : regex :=
  cats [ LOC_HEAD; lazy_star CAny; LEVEL_CLAUSE; LOC_TAIL ].

(** The truth value of [m.group(g)]: a group that is [None] or empty is
    false. *)
Definition truthy (g : option str) : bool :=
  match g with
  | Some (_ :: _) => true
  | _ => false
  end.

(** [next(int(g) for g in gs if g)]. *)
Fixpoint next_int (gs : list (option str)) : result Z :=
  match gs with
  | [] => Raised StopIteration
  | g :: t => if truthy g then py_int_group g else next_int t
  end.

Definition parse_loc (text : pyval) : result (option LocationKey) :=
  match text with
  | VStr s =>
    match search true LOC_STRICT_RE s with
    | None => Ok None
    | Some m =>
      b <- group_text m "block" ;;
      lv <- (if truthy (m !! "gl") then Ok 0
             else next_int [m !! "lvl2"; m !! "lvl1"; m !! "lvl0"]) ;;
      s <- group_text m "side" ;;
      Ok (Some (upper b, lv, capitalize s))
    end
  | _ => Ok None
  end.

(** ** The workbook *)

(** [PatternFill]: the pattern type and the foreground colour. *)
Record PatternFill := {
  patternType : option str;
  fgColor : str
}.

(** [PatternFill()]: no pattern, the default colour. *)
Definition no_fill : PatternFill :=
  {| patternType := None; fgColor := lit "00000000" |}.

Definition solid (rgb : string) : PatternFill :=
  {| patternType := Some (lit "solid"); fgColor := lit rgb |}.

Definition red : PatternFill := solid "FFFF0000".
Definition yellow : PatternFill := solid "FFFFFF00".
Definition green : PatternFill := solid "FF00B050".

Record Cell := {
  value : pyval;
  fill : PatternFill
}.

(** A cell that was never written: no value, no fill. *)
Definition blank : Cell := {| value := VNone; fill := no_fill |}.

(** A worksheet: its title, its cells by (row, column), both counted
    from 1, and its dimensions.  Reading a cell that holds nothing gives
    a blank one. *)
Record Worksheet := {
  title : str;
  cells : gmap (nat * nat) Cell;
  max_row : nat;
  max_column : nat
}.

Definition ws_cell (ws : Worksheet) (r c : nat) : Cell :=
  default blank (cells ws !! (r, c)).

Definition set_cell (ws : Worksheet) (r c : nat) (x : Cell) : Worksheet :=
  {| title := title ws; cells := <[(r, c) := x]> (cells ws);
     max_row := max_row ws; max_column := max_column ws |}.

Global Instance Worksheet_inhabited : Inhabited Worksheet :=
  populate {| title := []; cells := ∅; max_row := 1; max_column := 1 |}.

(** ** Colours *)

Definition color_fill_for_count (n : Z) : PatternFill :=
  if n <=? 6 then red
  else if (7 <=? n) && (n <=? 20) then yellow
  else green.

(** ** Choosing the worksheet of a kind *)

(** [SHEET_ALIASES.get(kind, [])]. *)
Definition SHEET_ALIASES (kind : str) : list str :=
  if decide (kind = lit "BW") then [lit "brickwork"]
  else if decide (kind = lit "SR") then
    [lit "sideraise"; lit "siderise"; lit "side raise"; lit "side-raise"; lit "side rise"]
  else [].

Fixpoint starts_with (p s : str) : bool :=
  match p, s with
  | [], _ => true
  | x :: p', y :: s' => Ascii.eqb x y && starts_with p' s'
  | _ :: _, [] => false
  end.

(** [a in s] on text: [a] occurs in [s]. *)
Fixpoint contains (a s : str) : bool :=
  starts_with a s ||
  match s with
  | [] => false
  | _ :: s' => contains a s'
  end.

(** The index in [wb.worksheets] of the sheet returned, if any; [i] is
    the index of the head of [wss]. *)
Fixpoint pick_from (aliases : list str) (i : nat) (wss : list Worksheet) : option nat :=
  match wss with
  | [] => None
  | ws :: rest =>
    if existsb (fun a => contains a (lower (title ws))) aliases then Some i
    else pick_from aliases (S i) rest
  end.

Definition pick_sheet_for_kind (wb : list Worksheet) (kind : str) : option nat :=
  pick_from (map lower (SHEET_ALIASES kind)) 0 wb.

(** ** The indices of a worksheet *)

(** The pattern of [re.match(r"^\s*(\d+)", txt)], compiled without flags. *)
Definition HEADER_RE : regex :=
  cats [ Bol; star CSpace; Grp "1" (plus CDigit) ].

(** The cells of row [r], columns 1 to [max_column]. *)
Definition ws_row (ws : Worksheet) (r : nat) : list Cell :=
  map (ws_cell ws r) (seq 1 (max_column ws)).

(** The loop of [build_q_header_map] over the cells that remain, [j]
    being the column of the first. *)
Fixpoint q_header_loop (j : nat) (row : list Cell) (qmap : gmap Z nat)
  : result (gmap Z nat) :=
  match row with
  | [] => Ok qmap
  | cell :: rest =>
    match value cell with
    | VStr txt =>
      match rmatch false HEADER_RE txt with
      | Some m =>
        q <- py_int_group (m !! "1") ;;
        q_header_loop (S j) rest (<[q := j]> qmap)
      | None => q_header_loop (S j) rest qmap
      end
    | _ => q_header_loop (S j) rest qmap
    end
  end.

Definition build_q_header_map (ws : Worksheet) : result (gmap Z nat) :=
  q_header_loop 1 (ws_row ws 1) ∅.

(** The rows below the header: [range(header_row + 1, ws.max_row + 1)]
    with [header_row = 1]. *)
Definition data_rows (ws : Worksheet) : list nat :=
  seq 2 (max_row ws - 1).

Fixpoint row_loop (ws : Worksheet) (rows : list nat) (rmap : gmap LocationKey nat)
  : result (gmap LocationKey nat) :=
  match rows with
  | [] => Ok rmap
  | r :: rest =>
    loc <- parse_loc (value (ws_cell ws r 1)) ;;
    match loc with
    | Some k =>
      match rmap !! k with
      | None => row_loop ws rest (<[k := r]> rmap)
      | Some _ => row_loop ws rest rmap
      end
    | None => row_loop ws rest rmap
    end
  end.

Definition build_row_map (ws : Worksheet) : result (gmap LocationKey nat) :=
  row_loop ws (data_rows ws) ∅.

(** The inner loop of [clear_non_location_rows]: the cells of row [r]
    at the columns [cols] lose value and fill. *)
Definition clear_cells (r : nat) (cols : list nat) (ws : Worksheet) : Worksheet :=
  fold_left (fun w c => set_cell w r c blank) cols ws.

Fixpoint clear_loop (cols : list nat) (rows : list nat) (ws : Worksheet)
  : result Worksheet :=
  match rows with
  | [] => Ok ws
  | r :: rest =>
    loc <- parse_loc (value (ws_cell ws r 1)) ;;
    match loc with
    | None => clear_loop cols rest (clear_cells r cols ws)
    | Some _ => clear_loop cols rest ws
    end
  end.

Definition clear_non_location_rows (ws : Worksheet) (qmap : gmap Z nat)
  : result Worksheet :=
  let cols := (map_to_list qmap).*2 in
  match cols with
  | [] => Ok ws
  | _ => clear_loop cols (data_rows ws) ws
  end.

(** ** Writing one value *)

Definition write_one (ws : Worksheet) (r c : nat) (v : Z) : Worksheet :=
  set_cell ws r c {| value := VInt v; fill := color_fill_for_count v |}.

(** ** The run *)

(** The state of [process]: the workbook, the four caches, the counter
    and the list of skipped entries.  [resolutions] is a ghost log of
    the calls to [pick_sheet_for_kind], by kind, in call order.
    Worksheet objects are named by their index in [wb.worksheets]. *)
Record State := {
  wb : list Worksheet;
  sheet_cache : gmap str (option nat);
  header_cache : gmap nat (gmap Z nat);
  row_cache : gmap nat (gmap LocationKey nat);
  cleared : gset nat;
  written : nat;
  skipped : list (Entry * str);
  resolutions : list str
}.

Definition init (w : list Worksheet) : State :=
  {| wb := w; sheet_cache := ∅; header_cache := ∅; row_cache := ∅;
     cleared := ∅; written := 0; skipped := []; resolutions := [] |}.

Definition with_wb (st : State) (w : list Worksheet) : State :=
  {| wb := w; sheet_cache := sheet_cache st; header_cache := header_cache st;
     row_cache := row_cache st; cleared := cleared st; written := written st;
     skipped := skipped st; resolutions := resolutions st |}.

Definition with_skip (st : State) (e : Entry) (why : str) : State :=
  {| wb := wb st; sheet_cache := sheet_cache st; header_cache := header_cache st;
     row_cache := row_cache st; cleared := cleared st; written := written st;
     skipped := skipped st ++ [(e, why)]; resolutions := resolutions st |}.

(** Step 1 of the loop body: the sheet of the entry's kind, from the
    cache or from a call to [pick_sheet_for_kind] whose result is stored. *)
Definition resolve_sheet (st : State) (e : Entry) : State * option nat :=
  match default None (sheet_cache st !! kind e) with
  | Some i => (st, Some i)
  | None =>
    let ws := pick_sheet_for_kind (wb st) (kind e) in
    ({| wb := wb st; sheet_cache := <[kind e := ws]> (sheet_cache st);
        header_cache := header_cache st; row_cache := row_cache st;
        cleared := cleared st; written := written st; skipped := skipped st;
        resolutions := resolutions st ++ [kind e] |}, ws)
  end.

(** Step 2: the header index and the row index of sheet [i], built when
    the cache has none. *)
Definition ensure_header (st : State) (i : nat) : result State :=
  match header_cache st !! i with
  | Some _ => Ok st
  | None =>
    q <- build_q_header_map (wb st !!! i) ;;
    Ok {| wb := wb st; sheet_cache := sheet_cache st;
          header_cache := <[i := q]> (header_cache st);
          row_cache := row_cache st; cleared := cleared st; written := written st;
          skipped := skipped st; resolutions := resolutions st |}
  end.

Definition ensure_rows (st : State) (i : nat) : result State :=
  match row_cache st !! i with
  | Some _ => Ok st
  | None =>
    m <- build_row_map (wb st !!! i) ;;
    Ok {| wb := wb st; sheet_cache := sheet_cache st; header_cache := header_cache st;
          row_cache := <[i := m]> (row_cache st);
          cleared := cleared st; written := written st;
          skipped := skipped st; resolutions := resolutions st |}
  end.

(** Step 3: the rows that are no location are cleared, once per sheet. *)
Definition ensure_cleared (st : State) (i : nat) : result State :=
  if decide (i ∈ cleared st) then Ok st
  else
    ws' <- clear_non_location_rows (wb st !!! i) (header_cache st !!! i) ;;
    Ok {| wb := <[i := ws']> (wb st); sheet_cache := sheet_cache st;
          header_cache := header_cache st; row_cache := row_cache st;
          cleared := {[i]} ∪ cleared st; written := written st;
          skipped := skipped st; resolutions := resolutions st |}.

Definition prepare (st : State) (i : nat) : result State :=
  st1 <- ensure_header st i ;;
  st2 <- ensure_rows st1 i ;;
  ensure_cleared st2 i.

(** The lookups and the write on a prepared sheet [i]. *)
Definition place (st : State) (i : nat) (e : Entry) : State :=
  let qmap := header_cache st !!! i in
  let rmap := row_cache st !!! i in
  let row := rmap !! (block e, level e, side e) in
  let col := qmap !! qnum e in
  match row with
  | None => with_skip st e (lit "location not found in column A")
  | Some r =>
    match col with
    | None => with_skip st e (lit "question number not found in header")
    | Some c =>
      {| wb := <[i := write_one (wb st !!! i) r c (count e)]> (wb st);
         sheet_cache := sheet_cache st; header_cache := header_cache st;
         row_cache := row_cache st; cleared := cleared st;
         written := S (written st); skipped := skipped st;
         resolutions := resolutions st |}
    end
  end.

(** One turn of the loop of [process]. *)
Definition step (st : State) (e : Entry) : result State :=
  let '(st1, ws) := resolve_sheet st e in
  match ws with
  | None =>
    Ok (with_skip st1 e (lit "sheet for kind '" ++ kind e ++ lit "' not found"))
  | Some i =>
    st2 <- prepare st1 i ;;
    Ok (place st2 i e)
  end.

Fixpoint run_entries (st : State) (entries : list Entry) : result State :=
  match entries with
  | [] => Ok st
  | e :: rest =>
    st' <- step st e ;;
    run_entries st' rest
  end.

(** [process]: the state when the loop ends, the workbook being what
    [wb.save] then stores. *)
Definition process (entries : list Entry) (w : list Worksheet) : result State :=
  run_entries (init w) entries.

(** ** Shapes of text

    What the pieces of the two patterns match, spelt out; the word
    boundaries the patterns also require are left to [lang]. *)

Definition digits (d : str) : Prop := Forall (fun x => is_digit x = true) d.
Definition spaces (w : str) : Prop := Forall (fun x => is_space x = true) w.
Definition zeros (z : str) : Prop := Forall (fun x => x = "0"%char) z.

(** One or two digits: [\d{1,2}]. *)
Definition digits12 (d : str) : Prop :=
  (1 <= length d <= 2)%nat /\ digits d.

(** [0{0,2}\s*-\s*Ground\s+Level] *)
Definition gl_clause (cl : str) : Prop :=
  exists z w1 w2 g w3 l,
    cl = z ++ w1 ++ ["-"%char] ++ w2 ++ g ++ w3 ++ l /\
    (length z <= 2)%nat /\ zeros z /\ spaces w1 /\ spaces w2 /\
    same_word true (lit "Ground") g /\ w3 <> [] /\ spaces w3 /\
    same_word true (lit "Level") l.

(** [\d{1,2}\s*-\s*Level\s+(?P<lvl2>\d{1,2})], [d2] being the group. *)
Definition lvl2_clause (cl d2 : str) : Prop :=
  exists d1 w1 w2 l w3,
    cl = d1 ++ w1 ++ ["-"%char] ++ w2 ++ l ++ w3 ++ d2 /\
    digits12 d1 /\ spaces w1 /\ spaces w2 /\
    same_word true (lit "Level") l /\ w3 <> [] /\ spaces w3 /\ digits12 d2.

(** [Level\s+(?P<lvl1>\d{1,2})] *)
Definition lvl1_clause (cl d : str) : Prop :=
  exists l w,
    cl = l ++ w ++ d /\
    same_word true (lit "Level") l /\ w <> [] /\ spaces w /\ digits12 d.

(** [L(?P<lvl0>\d{1,2})] *)
Definition lvl0_clause (cl d : str) : Prop :=
  exists x, cl = x :: d /\ (x = "L"%char \/ x = "l"%char) /\ digits12 d.

(** A side in any case. *)
Definition is_side (sd : str) : Prop :=
  lower sd = lit "east" \/ lower sd = lit "west" \/
  lower sd = lit "north" \/ lower sd = lit "south".

(** The groups a match of [LOC_STRICT_RE] sets: the block letter, the
    side and exactly one of the four level groups. *)
Inductive loc_groups (c' : caps) : Prop :=
| LocGroups (x : ascii) (sd : str) (lvl : string) (t : str)
    (Hx : (is_upper x || is_lower x) = true)
    (Hsd : is_side sd)
    (Hlvl : (lvl = "gl"%string /\ t <> []) \/
            ((lvl = "lvl2"%string \/ lvl = "lvl1"%string \/ lvl = "lvl0"%string)
             /\ digits12 t))
    (Hc : c' = <["side" := sd]> (<[lvl := t]> (<["block" := [x]]> ∅))).

(** A well-formed location key: one capital letter, a level from 0 to
    99 and one of the four sides, capitalised. *)
Definition valid_key (k : LocationKey) : Prop :=
  (exists x, k.1.1 = [x] /\ is_upper x = true) /\
  0 <= k.1.2 <= 99 /\
  In k.2 [lit "East"; lit "West"; lit "North"; lit "South"].

(** ** Reading the indices

    [parse_loc] and the header pattern never raise (shown below), so the
    key of a cell and the number of a header cell are plain options. *)

(** The location key of a cell value, if it has one. *)
Definition loc_of (v : pyval) : option LocationKey :=
  match parse_loc v with
  | Ok o => o
  | Raised _ => None
  end.

(** The leading question number of a header cell, if it has one. *)
Definition header_q (cell : Cell) : option Z :=
  match value cell with
  | VStr txt =>
    match rmatch false HEADER_RE txt with
    | Some m =>
      match py_int_group (m !! "1") with
      | Ok q => Some q
      | Raised _ => None
      end
    | None => None
    end
  | _ => None
  end.

Definition is_data_row (ws : Worksheet) (r : nat) : Prop :=
  (2 <= r <= max_row ws)%nat.

(** Row [r] is the topmost data row whose column A reads as [k]. *)
Definition first_row (ws : Worksheet) (k : LocationKey) (r : nat) : Prop :=
  is_data_row ws r /\
  loc_of (value (ws_cell ws r 1)) = Some k /\
  forall r', is_data_row ws r' -> (r' < r)%nat ->
    loc_of (value (ws_cell ws r' 1)) <> Some k.

(** Column [j] is the rightmost header cell whose number is [q]. *)
Definition last_col (ws : Worksheet) (q : Z) (j : nat) : Prop :=
  (1 <= j <= max_column ws)%nat /\
  header_q (ws_cell ws 1 j) = Some q /\
  forall j', (j < j' <= max_column ws)%nat ->
    header_q (ws_cell ws 1 j') <> Some q.

(** The columns a header index lists. *)
Definition listed (qmap : gmap Z nat) (c : nat) : Prop :=
  exists q, qmap !! q = Some c.

(** ** Sheet names *)

(** [a] occurs in [s]. *)
Definition occurs (a s : str) : Prop := exists p q, s = p ++ a ++ q.

(** The title of [ws] contains, whatever the case, an alias of [kind]. *)
Definition names_kind (kind : str) (ws : Worksheet) : Prop :=
  exists a, In a (SHEET_ALIASES kind) /\ occurs (lower a) (lower (title ws)).

(** ** Where an entry goes *)

(** The worksheet, row and column an entry resolves to on the workbook
    [w] as loaded, if it resolves at all. *)
Definition target (w : list Worksheet) (e : Entry) : option (nat * nat * nat) :=
  match pick_sheet_for_kind w (kind e) with
  | None => None
  | Some i =>
    match build_row_map (w !!! i), build_q_header_map (w !!! i) with
    | Ok rmap, Ok qmap =>
      match rmap !! (block e, level e, side e), qmap !! qnum e with
      | Some r, Some c => Some (i, r, c)
      | _, _ => None
      end
    | _, _ => None
    end
  end.

(** The entries of a list that resolve to one cell, in order. *)
Definition hits (w : list Worksheet) (i r c : nat) (es : list Entry) : list Entry :=
  filter (fun e => target w e = Some (i, r, c)) es.

(** The cell [write_one] leaves for a count. *)
Definition counted (n : Z) : Cell :=
  {| value := VInt n; fill := color_fill_for_count n |}.

(** ** Report lines *)








(** ** The level clause *)














(** ** Skipped entries *)

(** What one turn of the loop does with the entry [e] once its sheet
    [i] is resolved ([st1] is the state after the resolution): the sheet
    is prepared, which changes cells only if the sheet was not yet
    cleared, and only by clearing it; a missing row skips the entry with
    the first reason whatever the column lookup gives, a missing column
    with the second; a skip writes nothing more, leaves the counter as
    it is, and the loop goes on with the entries that remain. *)
Definition skip_outcome (st : State) (e : Entry) (i : nat) (st1 : State) : Prop :=
  exists st2 qmap rmap,
    prepare st1 i = Ok st2 /\
    header_cache st2 !! i = Some qmap /\ row_cache st2 !! i = Some rmap /\
    (wb st2 = wb st \/
     ((i ∉ cleared st) /\ exists ws',
        clear_non_location_rows (wb st !!! i) qmap = Ok ws' /\
        wb st2 = <[i := ws']> (wb st))) /\
    (rmap !! (block e, level e, side e) = None ->
     exists st', step st e = Ok st' /\
       skipped st' = skipped st ++ [(e, lit "location not found in column A")] /\
       wb st' = wb st2 /\ written st' = written st /\
       forall rest, run_entries st (e :: rest) = run_entries st' rest) /\
    (is_Some (rmap !! (block e, level e, side e)) -> qmap !! qnum e = None ->
     exists st', step st e = Ok st' /\
       skipped st' = skipped st ++ [(e, lit "question number not found in header")] /\
       wb st' = wb st2 /\ written st' = written st /\
       forall rest, run_entries st (e :: rest) = run_entries st' rest).

(** ** A small workbook

    One sheet named "Brickwork": a header with question 4 in column D,
    a stale row 2 and the same location in rows 3 and 4. *)
Definition demo_cell (v : pyval) : Cell := {| value := v; fill := red |}.

Definition demo_sheet : Worksheet :=
  {| title := lit "Brickwork";
     cells := list_to_map
       [ ((1, 1)%nat, demo_cell (VStr (lit "Location")));
         ((1, 4)%nat, demo_cell (VStr (lit "4 All Clean")));
         ((2, 1)%nat, demo_cell (VStr (lit "old total")));
         ((2, 4)%nat, demo_cell (VInt 99));
         ((3, 1)%nat, demo_cell (VStr (lit "Block A 3-Level 3 / East Elevation")));
         ((4, 1)%nat, demo_cell (VStr (lit "Block A 3-Level 3 / East Elevation"))) ];
     max_row := 4; max_column := 4 |}.

(** A sheet whose header carries the number 4 in columns 2 and 3. *)
Definition demo_header_sheet : Worksheet :=
  {| title := lit "Side Rise";
     cells := list_to_map
       [ ((1, 1)%nat, demo_cell (VStr (lit "Location")));
         ((1, 2)%nat, demo_cell (VStr (lit "4 All Clean")));
         ((1, 3)%nat, demo_cell (VStr (lit "4Fixings"))) ];
     max_row := 1; max_column := 3 |}.

Definition demo_entry (k : string) (b : string) (q n : Z) : Entry :=
  {| block := lit b; level := 3; side := lit "East"; qnum := q; count := n;
     kind := lit k |}.

(** ** Index loops and the loop of the run *)

(** No element of [l] reads as [y]. *)
Definition misses {A B} (f : A -> option B) (y : B) (l : list A) : Prop :=
  Forall (fun x => f x <> Some y) l.

(** The invariant of the loop of [process] on the workbook [w], after
    the entries [es]. *)
Record Inv (w : list Worksheet) (es : list Entry) (st : State) : Prop := {
  inv_titles : map title (wb st) = map title w;
  inv_sheet : forall k i,
    sheet_cache st !! k = Some (Some i) -> pick_sheet_for_kind w k = Some i;
  inv_ready : forall i, i ∈ cleared st ->
    exists q m, header_cache st !! i = Some q /\ row_cache st !! i = Some m /\
      build_q_header_map (w !!! i) = Ok q /\ build_row_map (w !!! i) = Ok m;
  inv_fresh : forall i, i ∉ cleared st ->
    header_cache st !! i = None /\ row_cache st !! i = None /\
    wb st !!! i = w !!! i;
  inv_cells : forall i r c e,
    last (hits w i r c es) = Some e ->
    i ∈ cleared st /\ ws_cell (wb st !!! i) r c = counted (count e);
  inv_skipped : forall e why, In (e, why) (skipped st) -> target w e = None
}.

(** ** The shape of a report line *)



(** ** Counting the calls of [pick_sheet_for_kind] *)

(** The calls made for kind [k], and the entries of kind [k]. *)
Definition calls (k : str) (st : State) : nat :=
  length (filter (fun x => x = k) (resolutions st)).

Definition uses (k : str) (es : list Entry) : nat :=
  length (filter (fun e => kind e = k) es).

(** What the sheet cache and the log hold after the entries [es]. *)
Record Calls (w : list Worksheet) (es : list Entry) (st : State) : Prop := {
  calls_cache : forall k,
    sheet_cache st !! k =
      if decide (uses k es = 0%nat) then None
      else Some (pick_sheet_for_kind w k);
  calls_count : forall k,
    calls k st =
      match pick_sheet_for_kind w k with
      | Some _ => Nat.min 1 (uses k es)
      | None => uses k es
      end
}.

(** ** What a run leaves behind *)

(** The reason for which the loop of [process] skips the entry [e] on
    the workbook [w], if it does: the three [continue] sites, in the
    order in which the loop reaches them. *)
Definition verdict (w : list Worksheet) (e : Entry) : option str :=
  match pick_sheet_for_kind w (kind e) with
  | None => Some (lit "sheet for kind '" ++ kind e ++ lit "' not found")
  | Some i =>
    match build_row_map (w !!! i), build_q_header_map (w !!! i) with
    | Ok rmap, Ok qmap =>
      match rmap !! (block e, level e, side e), qmap !! qnum e with
      | None, _ => Some (lit "location not found in column A")
      | Some _, None => Some (lit "question number not found in header")
      | Some _, Some _ => None
      end
    | _, _ => None
    end
  end.

(** The list of skipped entries a run over [es] reports. *)
Definition skips (w : list Worksheet) (es : list Entry) : list (Entry * str) :=
  omap (fun e => pair e <$> verdict w e) es.

(** Sheet [i] is the sheet of the kind of some entry of [es]. *)
Definition used (w : list Worksheet) (es : list Entry) (i : nat) : Prop :=
  exists e, In e es /\ pick_sheet_for_kind w (kind e) = Some i.

(** The cell at row [r], column [c] of [ws] is one the cleaner blanks:
    a data row whose column A is no location, at a column that carries
    a question number in the header. *)
Definition stale (ws : Worksheet) (r c : nat) : Prop :=
  is_data_row ws r /\ loc_of (value (ws_cell ws r 1)) = None /\
  exists q, last_col ws q c.

(** What the cells that no entry resolves to hold after the entries
    [es], and which sheets were prepared. *)
Record Frame (w : list Worksheet) (es : list Entry) (st : State) : Prop := {
  frame_cleared : forall i, i ∈ cleared st <-> used w es i;
  frame_dims : forall i,
    max_row (wb st !!! i) = max_row (w !!! i) /\
    max_column (wb st !!! i) = max_column (w !!! i);
  frame_skipped : skipped st = skips w es;
  frame_cells : forall i r c, last (hits w i r c es) = None ->
    (used w es i -> stale (w !!! i) r c -> ws_cell (wb st !!! i) r c = blank) /\
    (~ used w es i \/ ~ stale (w !!! i) r c ->
       ws_cell (wb st !!! i) r c = ws_cell (w !!! i) r c)
}.

(** ** Header cells *)




(** ** Case *)



(** ** The shape of a label *)





(** * Properties *)

(** ** The matcher and what a pattern matches *)

Lemma span_take p hi s i :
  (i <= span p hi s)%nat ->
  Forall (fun x => p x = true) (take i s) /\ (i <= length s)%nat /\ within hi i.
Proof.
  revert hi i. induction s as [|x t IH]; intros hi i Hi.
  - destruct hi as [[|h]|]; simpl in *; assert (i = 0)%nat as -> by lia;
      simpl; repeat split; auto; lia.
  - destruct i as [|i]; [destruct hi; simpl; repeat split; auto; lia|].
    destruct hi as [[|h]|]; simpl in Hi; try lia.
    + destruct (p x) eqn:Hp; [|lia].
      destruct (IH (Some h) i) as (HF & Hl & Hw); [simpl; lia|].
      simpl in *. repeat split; auto; lia.
    + destruct (p x) eqn:Hp; [|lia].
      destruct (IH None i) as (HF & Hl & Hw); [simpl; lia|].
      simpl in *. repeat split; auto; lia.
Qed.


Lemma in_rep_counts g lo n i :
  In i (rep_counts g lo n) <-> (lo <= i <= n)%nat.
Proof.
  unfold rep_counts. destruct g; [rewrite <- in_rev|]; rewrite in_seq; lia.
Qed.

(** *** The matcher enumerates what the pattern matches *)

Section Matcher.

Variable ic : bool.

Lemma run_sound r : forall b a c m a' c',
  In (m, a', c') (run ic r b a c) -> a = m ++ a' /\ lang ic r b m a' c c'.
Proof.
  induction r as [|k|g lo hi k| | |r1 IH1 r2 IH2|r1 IH1 r2 IH2|g r1 IH1];
    intros b a c m a' c' Hin; simpl in Hin.
  - destruct Hin as [[= <- <- <-]|[]]. simpl. auto.
  - destruct a as [|x t]; [contradiction|].
    destruct (cmatch ic k x) eqn:Hk; [|contradiction].
    destruct Hin as [[= <- <- <-]|[]]. simpl. eauto.
  - apply in_map_iff in Hin as (i & [= <- <- <-] & Hi).
    apply in_rep_counts in Hi as [Hlo Hhi].
    apply span_take in Hhi as (HF & Hl & Hw).
    assert (length (take i a) = i) as Hlen by (rewrite length_take; lia).
    split; [symmetry; apply take_drop|].
    simpl. rewrite Hlen. auto.
  - destruct b; [|contradiction].
    destruct Hin as [[= <- <- <-]|[]]. simpl. auto.
  - destruct (xorb _ _) eqn:Hx; [|contradiction].
    destruct Hin as [[= <- <- <-]|[]]. simpl. repeat split; auto.
    intros E. rewrite E in Hx. by rewrite xorb_nilpotent in Hx.
  - apply in_flat_map in Hin as ([[m1 a1] c1] & H1 & H2).
    apply in_map_iff in H2 as ([[m2 a2] c2] & [= <- <- <-] & H2).
    apply IH1 in H1 as [-> L1]. apply IH2 in H2 as [-> L2].
    split; [by rewrite app_assoc|]. simpl. eauto 10.
  - apply in_app_iff in Hin as [H|H]; [apply IH1 in H|apply IH2 in H];
      destruct H; simpl; auto.
  - apply in_map_iff in Hin as ([[m1 a1] c1] & [= <- <- <-] & H1).
    apply IH1 in H1 as [-> L1]. simpl. eauto.
Qed.


Lemma match_at_in r b a c' :
  match_at ic r b a = Some c' -> exists m a', In (m, a', c') (run ic r b a ∅).
Proof.
  unfold match_at. destruct (run ic r b a ∅) as [|[[m a'] c0] l]; [done|].
  intros [= <-]. exists m, a'. by left.
Qed.


Lemma search_from_some r : forall a b c',
  search_from ic r b a = Some c' ->
  exists pre post, a = pre ++ post /\ match_at ic r (rev pre ++ b) post = Some c'.
Proof.
  induction a as [|x t IH]; intros b c' H; simpl in H.
  - destruct (match_at ic r b []) eqn:E; [|done].
    exists [], []. by simplify_eq.
  - destruct (match_at ic r b (x :: t)) eqn:E.
    + exists [], (x :: t). by simplify_eq.
    + apply IH in H as (pre & post & -> & H).
      exists (x :: pre), post. split; [done|].
      simpl. by rewrite <- app_assoc.
Qed.


Lemma search_lang r s c' :
  search ic r s = Some c' ->
  exists pre m post, s = pre ++ m ++ post /\ lang ic r (rev pre) m post ∅ c'.
Proof.
  intros H. apply search_from_some in H as (pre & post & -> & H).
  apply match_at_in in H as (m & a' & H).
  apply run_sound in H as [-> L]. rewrite app_nil_r in L. eauto.
Qed.



End Matcher.

(** Characters *)
Lemma upper_lower_char c : upper_char (lower_char c) = upper_char c.
Proof. destruct c as [[] [] [] [] [] [] [] []]; reflexivity. Qed.


Lemma lang_word ic w : forall b m a c c',
  lang ic (word w) b m a c c' -> same_word ic w m /\ c' = c.
Proof.
  induction w as [|x t IH]; intros b m a c c' L.
  - destruct L as [-> ->]. split; [constructor|done].
  - destruct t as [|y t].
    + destruct L as [(z & -> & Hz) ->]. split; [|done].
      constructor; [done|constructor].
    + destruct L as (m1 & m2 & c1 & -> & [(z & -> & Hz) ->] & L2).
      apply IH in L2 as [HF ->]. split; [|done]. by constructor.
Qed.

Lemma same_word_lower w m : same_word true w m -> lower m = lower w.
Proof.
  induction 1 as [|x y w m Hxy _ IH]; [done|].
  simpl in *. f_equal; [|done].
  symmetry. by apply Ascii.eqb_eq.
Qed.


Lemma lower_capitalize s t : lower s = lower t -> capitalize s = capitalize t.
Proof.
  destruct s as [|x s], t as [|y t]; try done.
  simpl. intros [= Hxy H]. f_equal; [|done].
  by rewrite <- (upper_lower_char x), Hxy, upper_lower_char.
Qed.

Lemma map_seq_split {A} (f : nat -> A) a n l1 x l2 :
  map f (seq a n) = l1 ++ x :: l2 ->
  (length l1 < n)%nat /\ x = f (a + length l1)%nat /\
  l1 = map f (seq a (length l1)) /\
  l2 = map f (seq (S (a + length l1)) (n - S (length l1))).
Proof.
  revert a n. induction l1 as [|y l1 IH]; intros a n E.
  - destruct n as [|n]; [done|]. simpl in E. injection E as <- <-.
    simpl. rewrite Nat.add_0_r, Nat.sub_0_r. split; [lia|done].
  - destruct n as [|n]; [done|]. simpl in E. injection E as <- E.
    apply IH in E as (Hl & -> & E1 & E2). simpl.
    split; [lia|]. split; [f_equal; lia|]. split; [by f_equal|].
    rewrite E2 at 1. do 2 f_equal. lia.
Qed.

(** ** Location labels *)

Ltac lang_open H :=
  cbn [lang cats alts star plus lazy_star upto] in H.

Lemma lang_head b m a c c' :
  lang true LOC_HEAD b m a c c' ->
  exists h w x, m = h ++ w ++ [x] /\ same_word true (lit "Block") h /\
    w <> [] /\ spaces w /\ (is_upper x || is_lower x) = true /\
    word_side (head a) = false /\
    c' = <["block" := [x]]> c.
Proof.
  unfold LOC_HEAD. intros L. lang_open L.
  destruct L as (h & r1 & c1 & -> & Lh & L).
  apply lang_word in Lh as [Hh ->].
  destruct L as (w & r2 & c2 & -> & [(Hw1 & _ & Hw) ->] & L).
  destruct L as (g & r3 & c3 & -> & (c4 & [(x & -> & Hx) ->] & ->) & L).
  destruct L as [[-> Hb] ->].
  exists h, w, x. rewrite app_nil_r.
  split; [done|]. split; [done|].
  split; [by destruct w; [simpl in Hw1; lia|]|].
  split; [done|]. split; [done|]. split; [|done].
  simpl in Hb. unfold is_word in Hb. simpl in Hx. rewrite Hx in Hb. simpl in Hb.
  by destruct (word_side (head a)).
Qed.

Lemma cmatch_dash x : cmatch true (CChar "-") x = true -> x = "-"%char.
Proof.
  destruct x as [[] [] [] [] [] [] [] []]; vm_compute; intros H;
    try discriminate H; reflexivity.
Qed.


Lemma cmatch_zero x : cmatch true (CChar "0") x = true -> x = "0"%char.
Proof.
  destruct x as [[] [] [] [] [] [] [] []]; vm_compute; intros H;
    try discriminate H; reflexivity.
Qed.

Lemma cmatch_L x :
  cmatch true (CChar "L") x = true -> x = "L"%char \/ x = "l"%char.
Proof.
  destruct x as [[] [] [] [] [] [] [] []]; vm_compute; intros H;
    try discriminate H; auto.
Qed.

Lemma nonempty_length {A} (l : list A) : (1 <= length l)%nat -> l <> [].
Proof. destruct l; simpl; [lia|done]. Qed.

Lemma lang_gl b m a c c' :
  lang true GL_CLAUSE b m a c c' -> gl_clause m /\ c' = <["gl" := m]> c.
Proof.
  unfold GL_CLAUSE. intros L. lang_open L.
  destruct L as (c0 & L & ->).
  destruct L as (e1 & r1 & c1 & -> & [[-> _] ->] & L).
  destruct L as (z & r2 & c2 & -> & [(_ & Hz2 & Hz) ->] & L).
  destruct L as (w1 & r3 & c3 & -> & [(_ & _ & Hw1) ->] & L).
  destruct L as (d & r4 & c4 & -> & [(x & -> & Hx) ->] & L).
  destruct L as (w2 & r5 & c5 & -> & [(_ & _ & Hw2) ->] & L).
  destruct L as (g & r6 & c6 & -> & Lg & L).
  apply lang_word in Lg as [Hg ->].
  destruct L as (w3 & r7 & c7 & -> & [(Hw31 & _ & Hw3) ->] & L).
  destruct L as (l & r8 & c8 & -> & Ll & [[-> _] ->]).
  apply lang_word in Ll as [Hl ->].
  apply cmatch_dash in Hx as ->.
  split; [|done].
  exists z, w1, w2, g, w3, l. rewrite app_nil_r.
  split; [done|]. split; [exact Hz2|].
  split; [eapply Forall_impl; [exact Hz|apply cmatch_zero]|].
  split; [exact Hw1|]. split; [exact Hw2|]. split; [exact Hg|].
  split; [by apply nonempty_length|]. split; [exact Hw3|exact Hl].
Qed.

Lemma digits12_intro m :
  (1 <= length m)%nat -> within (Some 2%nat) (length m) ->
  Forall (fun x => cmatch true CDigit x = true) m -> digits12 m.
Proof. intros H1 H2 H3. split; [simpl in H2; lia|exact H3]. Qed.

Lemma lang_lvl2 b m a c c' :
  lang true LVL2_CLAUSE b m a c c' ->
  exists d2, lvl2_clause m d2 /\ c' = <["lvl2" := d2]> c.
Proof.
  unfold LVL2_CLAUSE. intros L. lang_open L.
  destruct L as (e1 & r1 & c1 & -> & [[-> _] ->] & L).
  destruct L as (d1 & r2 & c2 & -> & [(H1 & H2 & H3) ->] & L).
  pose proof (digits12_intro _ H1 H2 H3) as Hd1. clear H1 H2 H3.
  destruct L as (w1 & r3 & c3 & -> & [(_ & _ & Hw1) ->] & L).
  destruct L as (d & r4 & c4 & -> & [(x & -> & Hx) ->] & L).
  destruct L as (w2 & r5 & c5 & -> & [(_ & _ & Hw2) ->] & L).
  destruct L as (l & r6 & c6 & -> & Ll & L).
  apply lang_word in Ll as [Hl ->].
  destruct L as (w3 & r7 & c7 & -> & [(Hw31 & _ & Hw3) ->] & L).
  destruct L as (d2 & r8 & c8 & -> & (c9 & [(H1 & H2 & H3) ->] & ->) & [[-> _] ->]).
  pose proof (digits12_intro _ H1 H2 H3) as Hd2. clear H1 H2 H3.
  apply cmatch_dash in Hx as ->.
  exists d2. split; [|done].
  exists d1, w1, w2, l, w3. rewrite app_nil_r.
  split; [done|]. split; [exact Hd1|]. split; [exact Hw1|]. split; [exact Hw2|].
  split; [exact Hl|]. split; [by apply nonempty_length|].
  split; [exact Hw3|exact Hd2].
Qed.

Lemma lang_lvl1 b m a c c' :
  lang true LVL1_CLAUSE b m a c c' ->
  exists d, lvl1_clause m d /\ c' = <["lvl1" := d]> c.
Proof.
  unfold LVL1_CLAUSE. intros L. lang_open L.
  destruct L as (e1 & r1 & c1 & -> & [[-> _] ->] & L).
  destruct L as (l & r6 & c6 & -> & Ll & L).
  apply lang_word in Ll as [Hl ->].
  destruct L as (w3 & r7 & c7 & -> & [(Hw31 & _ & Hw3) ->] & L).
  destruct L as (d2 & r8 & c8 & -> & (c9 & [(H1 & H2 & H3) ->] & ->) & [[-> _] ->]).
  pose proof (digits12_intro _ H1 H2 H3) as Hd2. clear H1 H2 H3.
  exists d2. split; [|done].
  exists l, w3. rewrite app_nil_r.
  split; [done|]. split; [exact Hl|].
  split; [by apply nonempty_length|]. split; [exact Hw3|exact Hd2].
Qed.

Lemma lang_lvl0 b m a c c' :
  lang true LVL0_CLAUSE b m a c c' ->
  exists d, lvl0_clause m d /\ c' = <["lvl0" := d]> c.
Proof.
  unfold LVL0_CLAUSE. intros L. lang_open L.
  destruct L as (e1 & r1 & c1 & -> & [[-> _] ->] & L).
  destruct L as (l & r6 & c6 & -> & [(x & -> & Hx) ->] & L).
  destruct L as (d2 & r8 & c8 & -> & (c9 & [(H1 & H2 & H3) ->] & ->) & [[-> _] ->]).
  pose proof (digits12_intro _ H1 H2 H3) as Hd2. clear H1 H2 H3.
  exists d2. split; [|done].
  exists x. rewrite app_nil_r.
  split; [done|]. split; [by apply cmatch_L|exact Hd2].
Qed.

Lemma lang_sides_EWNS b m a c c' :
  lang true sides_EWNS b m a c c' -> is_side m /\ c' = c.
Proof.
  unfold sides_EWNS. intros L. lang_open L. unfold is_side.
  destruct L as [L|[L|[L|L]]]; apply lang_word in L as [L ->];
    apply same_word_lower in L; auto.
Qed.

Lemma lang_tail b m a c c' :
  lang true LOC_TAIL b m a c c' ->
  exists sd, is_side sd /\ c' = <["side" := sd]> c.
Proof.
  unfold LOC_TAIL. intros L. lang_open L.
  destruct L as (m1 & r1 & c1 & -> & [_ ->] & L).
  destruct L as (m2 & r2 & c2 & -> & [_ ->] & L).
  destruct L as (m3 & r3 & c3 & -> & [_ ->] & L).
  destruct L as (sd & r4 & c4 & -> & (c5 & Ls & ->) & L).
  apply lang_sides_EWNS in Ls as [Hs ->].
  destruct L as (m5 & r5 & c6 & -> & [_ ->] & L).
  destruct L as (m6 & r6 & c7 & -> & Le & [_ ->]).
  apply lang_word in Le as [_ ->]. eauto.
Qed.

Lemma gl_clause_nonempty cl : gl_clause cl -> cl <> [].
Proof.
  intros (z & w1 & w2 & g & w3 & l & -> & _) E.
  apply app_eq_nil in E as [_ E]. apply app_eq_nil in E as [_ E]. done.
Qed.

Lemma lang_loc b m a c' :
  lang true LOC_STRICT_RE b m a ∅ c' -> loc_groups c'.
Proof.
  unfold LOC_STRICT_RE, LEVEL_CLAUSE. intros L. lang_open L.
  destruct L as (hd & r1 & c1 & -> & Lh & L).
  apply lang_head in Lh as (h & w & x & _ & _ & _ & _ & Hx & _ & ->).
  destruct L as (sk & r2 & c2 & -> & [_ ->] & L).
  destruct L as (cl & tl & c3 & -> & Lc & Lt).
  apply lang_tail in Lt as (sd & Hsd & ->).
  destruct Lc as [Lc|[Lc|[Lc|Lc]]].
  - apply lang_gl in Lc as [Hg ->].
    eapply LocGroups; [exact Hx|exact Hsd| |reflexivity].
    left. split; [done|]. by apply gl_clause_nonempty.
  - apply lang_lvl2 in Lc as (d & (d1 & w1 & w2 & l & w3 & _ & _ & _ & _ & _ & _ & _ & Hd) & ->).
    eapply LocGroups; [exact Hx|exact Hsd| |reflexivity]. right. auto.
  - apply lang_lvl1 in Lc as (d & (l & w1 & _ & _ & _ & _ & Hd) & ->).
    eapply LocGroups; [exact Hx|exact Hsd| |reflexivity]. right. auto.
  - apply lang_lvl0 in Lc as (d & (l & _ & _ & Hd) & ->).
    eapply LocGroups; [exact Hx|exact Hsd| |reflexivity]. right. auto.
Qed.

Lemma digit_val_bound x : is_digit x = true -> 0 <= digit_val x <= 9.
Proof.
  destruct x as [[] [] [] [] [] [] [] []]; vm_compute; intros H;
    try discriminate H; split; discriminate.
Qed.

Lemma py_int_digits d :
  d <> [] -> digits d -> py_int d = Ok (int_digits d).
Proof.
  intros Hne Hd. unfold py_int. destruct d as [|x t]; [done|].
  assert (forallb is_digit (x :: t) = true) as ->; [|done].
  apply forallb_forall. intros y Hy. unfold digits in Hd.
  rewrite Forall_forall in Hd. apply Hd. by apply list_elem_of_In.
Qed.

Lemma digits12_int d :
  digits12 d -> py_int d = Ok (int_digits d) /\ 0 <= int_digits d <= 99.
Proof.
  intros [Hl Hd]. split.
  - apply py_int_digits; [|done]. destruct d; simpl in Hl; [lia|done].
  - destruct d as [|x [|y [|z t]]]; simpl in Hl; try lia.
    + inversion Hd as [|? ? Hx _]; subst. apply digit_val_bound in Hx.
      unfold int_digits. simpl. lia.
    + inversion Hd as [|? ? Hx Hd']; subst. inversion Hd' as [|? ? Hy _]; subst.
      apply digit_val_bound in Hx, Hy. unfold int_digits. simpl. lia.
Qed.

Lemma upper_letter x :
  (is_upper x || is_lower x) = true -> is_upper (upper_char x) = true.
Proof.
  destruct x as [[] [] [] [] [] [] [] []]; vm_compute; intros H;
    try discriminate H; reflexivity.
Qed.

Lemma is_side_capitalize sd :
  is_side sd -> In (capitalize sd) [lit "East"; lit "West"; lit "North"; lit "South"].
Proof.
  intros [H|[H|[H|H]]].
  - left. symmetry. apply (lower_capitalize sd (lit "east") H).
  - right; left. symmetry. apply (lower_capitalize sd (lit "west") H).
  - right; right; left. symmetry. apply (lower_capitalize sd (lit "north") H).
  - right; right; right; left. symmetry. apply (lower_capitalize sd (lit "south") H).
Qed.

Ltac lookups :=
  repeat first [ rewrite lookup_insert_eq
               | rewrite lookup_insert_ne by done
               | rewrite lookup_empty ].

Lemma truthy_nonempty t : t <> [] -> truthy (Some t) = true.
Proof. by destruct t. Qed.

Lemma digits12_nonempty t : digits12 t -> t <> [].
Proof. intros [Hl _]. destruct t; simpl in Hl; [lia|done]. Qed.

Lemma valid_key_intro x lv sd :
  (is_upper x || is_lower x) = true -> 0 <= lv <= 99 -> is_side sd ->
  valid_key (upper [x], lv, capitalize sd).
Proof.
  intros Hx Hlv Hsd. split; [|split]; simpl.
  - eexists. split; [done|]. by apply upper_letter.
  - done.
  - by apply is_side_capitalize.
Qed.

Lemma parse_loc_ok v :
  parse_loc v = Ok None \/ exists k, parse_loc v = Ok (Some k) /\ valid_key k.
Proof.
  destruct v as [| | | |s]; simpl; auto.
  destruct (search true LOC_STRICT_RE s) as [m|] eqn:E; [|auto].
  right. apply search_lang in E as (pre & m0 & post & -> & L).
  apply lang_loc in L as [x sd lvl t Hx Hsd Hlvl ->].
  unfold group_text.
  destruct Hlvl as [[-> Ht]|[Hl Ht]].
  - lookups. rewrite (truthy_nonempty _ Ht). cbn [rbind].
    eexists. split; [reflexivity|]. apply valid_key_intro; [done|lia|done].
  - destruct (digits12_int _ Ht) as [Hi Hb].
    pose proof (truthy_nonempty _ (digits12_nonempty _ Ht)) as Htr.
    assert (truthy None = false) as Hn by done.
    destruct Hl as [-> | [-> | ->]]; lookups; cbn [rbind next_int];
      rewrite ?Hn, ?Htr; cbn [rbind py_int_group]; rewrite Hi; cbn [rbind];
      (eexists; split; [reflexivity|]; by apply valid_key_intro).
Qed.

(** ** The indices of a worksheet *)

Lemma parse_loc_total v : parse_loc v = Ok (loc_of v).
Proof.
  unfold loc_of. destruct (parse_loc_ok v) as [->|(k & -> & _)]; done.
Qed.

Lemma lang_header b m a c' :
  lang false HEADER_RE b m a ∅ c' ->
  exists d, d <> [] /\ digits d /\ c' !! "1"%string = Some d.
Proof.
  unfold HEADER_RE. intros L. lang_open L.
  destruct L as (m1 & r1 & c1 & -> & [_ ->] & L).
  destruct L as (m2 & r2 & c2 & -> & [_ ->] & L).
  destruct L as (c3 & [(H1 & _ & Hd) ->] & ->).
  exists r2. split; [by apply nonempty_length|]. split; [exact Hd|].
  by rewrite lookup_insert_eq.
Qed.

Lemma header_int txt m :
  rmatch false HEADER_RE txt = Some m ->
  exists q, py_int_group (m !! "1"%string) = Ok q.
Proof.
  intros H. apply match_at_in in H as (m0 & a' & H).
  apply run_sound in H as [_ L].
  apply lang_header in L as (d & Hne & Hd & ->).
  exists (int_digits d). simpl. by apply py_int_digits.
Qed.

Lemma q_header_loop_spec row : forall j qmap,
  exists qmap', q_header_loop j row qmap = Ok qmap' /\
    forall q c, qmap' !! q = Some c <->
      (exists l1 cell l2, row = l1 ++ cell :: l2 /\ header_q cell = Some q /\
         c = (j + length l1)%nat /\ misses header_q q l2) \/
      (qmap !! q = Some c /\ misses header_q q row).
Proof.
  induction row as [|cell rest IH]; intros j qmap.
  - exists qmap. split; [done|]. intros q c. split.
    + intros H. right. split; [done|constructor].
    + intros [(l1 & x & l2 & E & _)|[H _]]; [by destruct l1|done].
  - assert (exists qmap1,
      q_header_loop j (cell :: rest) qmap = q_header_loop (S j) rest qmap1 /\
      forall q c, qmap1 !! q = Some c <->
        (header_q cell = Some q /\ c = j) \/
        (header_q cell <> Some q /\ qmap !! q = Some c)) as (qmap1 & -> & H1).
    { unfold header_q. simpl. destruct (value cell) as [| | | |txt];
        try (exists qmap; split; [done|]; intros q c; split;
             [intros H; by right|intros [[? _]|[_ ?]]; done]).
      destruct (rmatch false HEADER_RE txt) as [m|] eqn:Em;
        [|exists qmap; split; [done|]; intros q c; split;
             [intros H; by right|intros [[? _]|[_ ?]]; done]].
      destruct (header_int _ _ Em) as (q0 & ->). simpl.
      exists (<[q0 := j]> qmap). split; [done|]. intros q c.
      rewrite lookup_insert. case_decide as Hq.
      - subst. split; [intros [= <-]; by left|].
        intros [[_ ->]|[Hne _]]; [done|by destruct Hne].
      - split; [intros H; right; split; [congruence|done]|].
        intros [[[= E] _]|[_ H]]; [by destruct Hq|done]. }
    destruct (IH (S j) qmap1) as (qmap' & -> & H2).
    exists qmap'. split; [done|]. intros q c. rewrite H2. clear H2. split.
    + intros [(l1 & x & l2 & -> & Hx & -> & Hm)|[Hq Hm]].
      * left. exists (cell :: l1), x, l2. simpl.
        split; [done|]. split; [done|]. split; [lia|done].
      * apply H1 in Hq as [[Hc ->]|[Hc Hq]].
        -- left. exists [], cell, rest. simpl.
           split; [done|]. split; [done|]. split; [lia|done].
        -- right. split; [done|]. by constructor.
    + intros [(l1 & x & l2 & E & Hx & -> & Hm)|[Hq Hm]].
      * destruct l1 as [|y l1]; simpl in E; injection E as -> ->.
        -- right. split; [|done]. apply H1. left. split; [done|]. simpl. lia.
        -- left. exists l1, x, l2. split; [done|]. split; [done|].
           split; [simpl; lia|done].
      * inversion Hm as [|? ? Hc Hr]; subst.
        right. split; [|done]. apply H1. by right.
Qed.

Lemma map_seq_at {A} (f : nat -> A) a n i :
  (i < n)%nat ->
  map f (seq a n) =
    map f (seq a i) ++ f (a + i)%nat :: map f (seq (S (a + i)) (n - S i)).
Proof.
  intros Hi. replace n with (i + S (n - S i))%nat at 1 by lia.
  rewrite seq_app, map_app. simpl. done.
Qed.

Lemma misses_map_seq {A B} (g : A -> option B) (f : nat -> A) y a n :
  misses g y (map f (seq a n)) <->
  forall j, (a <= j < a + n)%nat -> g (f j) <> Some y.
Proof.
  unfold misses. rewrite Forall_forall. split.
  - intros H j Hj. apply H. apply list_elem_of_In, in_map, in_seq. lia.
  - intros H x Hx. apply list_elem_of_In, in_map_iff in Hx as (j & <- & Hj).
    apply in_seq in Hj. apply H. lia.
Qed.

Lemma build_q_header_map_spec ws :
  exists qmap, build_q_header_map ws = Ok qmap /\
    forall q j, qmap !! q = Some j <-> last_col ws q j.
Proof.
  unfold build_q_header_map, ws_row.
  destruct (q_header_loop_spec (map (ws_cell ws 1) (seq 1 (max_column ws))) 1 ∅)
    as (qmap & -> & H).
  exists qmap. split; [done|]. intros q j. rewrite H. clear H.
  unfold last_col. split.
  - intros [(l1 & cell & l2 & E & Hc & -> & Hm)|[Hq _]];
      [|by rewrite lookup_empty in Hq].
    apply map_seq_split in E as (Hl & -> & _ & ->).
    split; [lia|]. split; [done|]. intros j' Hj'.
    eapply misses_map_seq; [exact Hm|]. lia.
  - intros (Hj & Hc & Hm). left.
    exists (map (ws_cell ws 1) (seq 1 (j - 1))), (ws_cell ws 1 j),
           (map (ws_cell ws 1) (seq (S j) (max_column ws - j))).
    split.
    + rewrite (map_seq_at _ 1 (max_column ws) (j - 1)) by lia.
      replace (1 + (j - 1))%nat with j by lia.
      by replace (max_column ws - S (j - 1))%nat with (max_column ws - j)%nat by lia.
    + split; [done|]. split; [rewrite length_map, length_seq; lia|].
      apply misses_map_seq. intros j' Hj'. apply Hm. lia.
Qed.

Lemma row_loop_spec ws rows : forall rmap,
  exists rmap', row_loop ws rows rmap = Ok rmap' /\
    forall k r, rmap' !! k = Some r <->
      rmap !! k = Some r \/
      (rmap !! k = None /\
       exists l1 l2, rows = l1 ++ r :: l2 /\
         loc_of (value (ws_cell ws r 1)) = Some k /\
         misses (fun r' => loc_of (value (ws_cell ws r' 1))) k l1).
Proof.
  induction rows as [|r0 rest IH]; intros rmap.
  - exists rmap. split; [done|]. intros k r. split; [by left|].
    intros [H|(_ & l1 & l2 & E & _)]; [done|by destruct l1].
  - simpl. rewrite parse_loc_total. simpl.
    destruct (loc_of (value (ws_cell ws r0 1))) as [k0|] eqn:Ek0.
    + destruct (rmap !! k0) as [r1|] eqn:Er1.
      * destruct (IH rmap) as (rmap' & -> & H). exists rmap'.
        split; [done|]. intros k r. rewrite H. clear H. split.
        -- intros [H|(Hn & l1 & l2 & -> & Hk & Hm)]; [by left|].
           right. split; [done|]. exists (r0 :: l1), l2.
           split; [done|]. split; [done|]. constructor; [|done].
           congruence.
        -- intros [H|(Hn & l1 & l2 & E & Hk & Hm)]; [by left|].
           destruct l1 as [|y l1]; simpl in E; injection E as -> ->.
           ++ congruence.
           ++ inversion Hm; subst. right. split; [done|]. eauto.
      * destruct (IH (<[k0 := r0]> rmap)) as (rmap' & -> & H). exists rmap'.
        split; [done|]. intros k r. rewrite H. clear H.
        rewrite !lookup_insert. case_decide as Hk0.
        -- subst k. split.
           ++ intros [[= <-]|[? _]]; [|done]. right. split; [done|].
              exists [], rest. split; [done|]. split; [done|]. constructor.
           ++ intros [H|(Hn & l1 & l2 & E & Hk & Hm)]; [congruence|].
              left. destruct l1 as [|y l1]; simpl in E; injection E as -> ->; [done|].
              inversion Hm; subst. congruence.
        -- split.
           ++ intros [H|(Hn & l1 & l2 & -> & Hk & Hm)]; [by left|].
              right. split; [done|]. exists (r0 :: l1), l2.
              split; [done|]. split; [done|]. constructor; [|done]. congruence.
           ++ intros [H|(Hn & l1 & l2 & E & Hk & Hm)]; [by left|].
              destruct l1 as [|y l1]; simpl in E; injection E as -> ->.
              ** congruence.
              ** inversion Hm; subst. right. split; [done|]. eauto.
    + destruct (IH rmap) as (rmap' & -> & H). exists rmap'.
      split; [done|]. intros k r. rewrite H. clear H. split.
      * intros [H|(Hn & l1 & l2 & -> & Hk & Hm)]; [by left|].
        right. split; [done|]. exists (r0 :: l1), l2.
        split; [done|]. split; [done|]. constructor; [|done]. congruence.
      * intros [H|(Hn & l1 & l2 & E & Hk & Hm)]; [by left|].
        destruct l1 as [|y l1]; simpl in E; injection E as -> ->.
        -- congruence.
        -- inversion Hm; subst. right. split; [done|]. eauto.
Qed.

Lemma build_row_map_spec ws :
  exists rmap, build_row_map ws = Ok rmap /\
    forall k r, rmap !! k = Some r <-> first_row ws k r.
Proof.
  unfold build_row_map, data_rows.
  destruct (row_loop_spec ws (seq 2 (max_row ws - 1)) ∅) as (rmap & -> & H).
  exists rmap. split; [done|]. intros k r. rewrite H. clear H.
  unfold first_row, is_data_row. split.
  - intros [Hq|(_ & l1 & l2 & E & Hk & Hm)]; [by rewrite lookup_empty in Hq|].
    rewrite <- (map_id (seq _ _)) in E.
    apply map_seq_split in E as (Hl & Hr & E1 & _). simpl in Hr.
    split; [lia|]. split; [done|]. intros r' Hr' Hlt.
    rewrite E1 in Hm. eapply (misses_map_seq _ id) in Hm; [exact Hm|]. lia.
  - intros (Hr & Hk & Hm). right. split; [apply lookup_empty|].
    exists (seq 2 (r - 2)), (seq (S r) (max_row ws - r)). split.
    + rewrite <- (map_id (seq 2 (max_row ws - 1))).
      rewrite (map_seq_at _ 2 _ (r - 2)) by lia.
      rewrite !map_id. replace (2 + (r - 2))%nat with r by lia.
      by replace (max_row ws - 1 - S (r - 2))%nat with (max_row ws - r)%nat by lia.
    + split; [done|]. rewrite <- (map_id (seq 2 (r - 2))).
      apply (misses_map_seq _ id). intros j Hj. apply (Hm j); lia.
Qed.

(** ** Clearing stale rows *)

Lemma ws_cell_set_eq ws r c x : ws_cell (set_cell ws r c x) r c = x.
Proof. unfold ws_cell, set_cell. simpl. by rewrite lookup_insert_eq. Qed.

Lemma ws_cell_set_ne ws r c x r' c' :
  (r, c) <> (r', c') -> ws_cell (set_cell ws r c x) r' c' = ws_cell ws r' c'.
Proof. intros H. unfold ws_cell, set_cell. simpl. by rewrite lookup_insert_ne. Qed.

Lemma clear_cells_dims r cols : forall ws,
  title (clear_cells r cols ws) = title ws /\
  max_row (clear_cells r cols ws) = max_row ws /\
  max_column (clear_cells r cols ws) = max_column ws.
Proof.
  unfold clear_cells. induction cols as [|c cols IH]; intros ws; [done|].
  simpl. destruct (IH (set_cell ws r c blank)) as (-> & -> & ->). done.
Qed.

Lemma clear_cells_in r cols : forall ws c,
  c ∈ cols -> ws_cell (clear_cells r cols ws) r c = blank.
Proof.
  unfold clear_cells. induction cols as [|c0 cols IH]; intros ws c Hc.
  - by apply elem_of_nil in Hc.
  - simpl. destruct (decide (c ∈ cols)) as [Hin|Hout]; [by apply IH|].
    apply elem_of_cons in Hc as [->|Hc]; [|done].
    clear IH. revert ws. induction cols as [|c1 cols IH]; intros ws.
    + simpl. apply ws_cell_set_eq.
    + simpl. apply not_elem_of_cons in Hout as [Hne Hout].
      assert (set_cell (set_cell ws r c0 blank) r c1 blank =
              set_cell (set_cell ws r c1 blank) r c0 blank) as ->.
      { unfold set_cell. simpl. f_equal. apply insert_insert_ne. congruence. }
      by apply IH.
Qed.

Lemma clear_cells_out r cols : forall ws r' c,
  (r' <> r \/ c ∉ cols) ->
  ws_cell (clear_cells r cols ws) r' c = ws_cell ws r' c.
Proof.
  unfold clear_cells. induction cols as [|c0 cols IH]; intros ws r' c H; [done|].
  simpl. rewrite IH.
  - apply ws_cell_set_ne. destruct H as [H|H]; [congruence|].
    apply not_elem_of_cons in H as [H _]. congruence.
  - destruct H as [H|H]; [by left|right].
    by apply not_elem_of_cons in H as [_ H].
Qed.

Lemma clear_loop_spec cols rows : forall ws,
  NoDup rows ->
  exists ws', clear_loop cols rows ws = Ok ws' /\
    title ws' = title ws /\ max_row ws' = max_row ws /\
    max_column ws' = max_column ws /\
    forall r c,
      (r ∈ rows -> loc_of (value (ws_cell ws r 1)) = None -> c ∈ cols ->
         ws_cell ws' r c = blank) /\
      (r ∉ rows \/ loc_of (value (ws_cell ws r 1)) <> None \/ c ∉ cols ->
         ws_cell ws' r c = ws_cell ws r c).
Proof.
  induction rows as [|r0 rest IH]; intros ws Hnd.
  - exists ws. repeat split; try done. intros H. by apply elem_of_nil in H.
  - apply NoDup_cons in Hnd as [Hr0 Hnd]. simpl.
    rewrite parse_loc_total. simpl.
    destruct (loc_of (value (ws_cell ws r0 1))) as [k|] eqn:Ek.
    + destruct (IH ws Hnd) as (ws' & -> & Ht & Hmr & Hmc & H).
      exists ws'. repeat split; try done.
      * intros Hr Hl Hc. apply elem_of_cons in Hr as [->|Hr]; [congruence|].
        by apply H.
      * intros Hor. destruct (decide (r = r0)) as [->|Hne].
        -- apply H. by left.
        -- apply H. destruct Hor as [Hor|Hor]; [|by right].
           left. intros Hin. apply Hor. by apply elem_of_cons; right.
    + destruct (IH (clear_cells r0 cols ws) Hnd) as (ws' & -> & Ht & Hmr & Hmc & H).
      destruct (clear_cells_dims r0 cols ws) as (Ht' & Hmr' & Hmc').
      exists ws'. split; [done|]. split; [congruence|]. split; [congruence|].
      split; [congruence|]. intros r c. split.
      * intros Hr Hl Hc. apply elem_of_cons in Hr as [->|Hr].
        -- destruct (H r0 c) as [_ ->]; [|by left]. by apply clear_cells_in.
        -- assert (r <> r0) as Hne by (intros ->; done).
           apply H; [done| |done].
           rewrite clear_cells_out; [done|by left].
      * intros Hor. destruct (decide (r = r0)) as [->|Hne].
        -- destruct (H r0 c) as [_ ->]; [|by left].
           apply clear_cells_out. right.
           destruct Hor as [Hor|[Hor|Hor]]; [|done|done].
           exfalso. apply Hor. by apply elem_of_cons; left.
        -- destruct (H r c) as [_ ->].
           ++ apply clear_cells_out. by left.
           ++ destruct Hor as [Hor|[Hor|Hor]].
              ** left. intros Hin. apply Hor. by apply elem_of_cons; right.
              ** right; left. rewrite clear_cells_out; [done|by left].
              ** by right; right.
Qed.

Lemma listed_cols qmap c : c ∈ (map_to_list qmap).*2 <-> listed qmap c.
Proof.
  unfold listed. rewrite list_elem_of_fmap. split.
  - intros ([q c'] & -> & H). apply elem_of_map_to_list in H. eauto.
  - intros (q & H). exists (q, c). split; [done|]. by apply elem_of_map_to_list.
Qed.

Lemma data_rows_elem ws r : r ∈ data_rows ws <-> is_data_row ws r.
Proof.
  unfold data_rows, is_data_row. rewrite list_elem_of_In, in_seq. lia.
Qed.

Lemma clear_non_location_rows_spec ws qmap :
  exists ws', clear_non_location_rows ws qmap = Ok ws' /\
    title ws' = title ws /\ max_row ws' = max_row ws /\
    max_column ws' = max_column ws /\
    forall r c,
      (is_data_row ws r -> loc_of (value (ws_cell ws r 1)) = None ->
         listed qmap c -> ws_cell ws' r c = blank) /\
      (~ is_data_row ws r \/ loc_of (value (ws_cell ws r 1)) <> None \/
         ~ listed qmap c -> ws_cell ws' r c = ws_cell ws r c).
Proof.
  unfold clear_non_location_rows.
  destruct ((map_to_list qmap).*2) as [|c0 cols] eqn:Ec.
  - exists ws. repeat split; try done.
    intros _ _ Hl. apply listed_cols in Hl. rewrite Ec in Hl.
    by apply elem_of_nil in Hl.
  - rewrite <- Ec.
    destruct (clear_loop_spec ((map_to_list qmap).*2) (data_rows ws) ws)
      as (ws' & -> & Ht & Hmr & Hmc & H).
    { apply NoDup_ListNoDup, seq_NoDup. }
    exists ws'. repeat split; try done.
    + intros Hr Hl Hc. apply H; [by apply data_rows_elem|done|by apply listed_cols].
    + intros Hor. apply H. rewrite data_rows_elem, listed_cols. done.
Qed.

(** ** Sheets and colours *)

Lemma starts_with_spec p : forall s,
  starts_with p s = true <-> exists q, s = p ++ q.
Proof.
  induction p as [|x p IH]; intros s; simpl.
  - split; [eauto|done].
  - destruct s as [|y s]; [split; [done|by intros (q & ?)]|].
    rewrite andb_true_iff, Ascii.eqb_eq, IH. split.
    + intros [-> (q & ->)]. eauto.
    + intros (q & [= -> ->]). eauto.
Qed.

Lemma contains_spec a : forall s, contains a s = true <-> occurs a s.
Proof.
  unfold occurs. induction s as [|y s IH]; simpl.
  - rewrite orb_false_r, starts_with_spec. split.
    + intros (q & ->). by exists [], q.
    + intros (p & q & E). destruct p; simpl in E; [eauto|done].
  - rewrite orb_true_iff, starts_with_spec, IH. split.
    + intros [(q & ->)|(p & q & ->)]; [by exists [], q|by exists (y :: p), q].
    + intros (p & q & E). destruct p as [|z p]; simpl in E.
      * left. eauto.
      * right. injection E as -> ->. eauto.
Qed.

Lemma existsb_aliases kind ws :
  existsb (fun a => contains a (lower (title ws))) (map lower (SHEET_ALIASES kind)) = true
  <-> names_kind kind ws.
Proof.
  unfold names_kind. rewrite existsb_exists. split.
  - intros (a' & Hin & Hc). apply in_map_iff in Hin as (a & <- & Hin).
    apply contains_spec in Hc. eauto.
  - intros (a & Hin & Hc). exists (lower a). split; [by apply in_map|].
    by apply contains_spec.
Qed.

Lemma pick_from_spec kind wss : forall i,
  match pick_from (map lower (SHEET_ALIASES kind)) i wss with
  | Some j =>
    (i <= j)%nat /\ exists ws, wss !! (j - i)%nat = Some ws /\ names_kind kind ws /\
      forall n ws', (n < j - i)%nat -> wss !! n = Some ws' -> ~ names_kind kind ws'
  | None => forall ws, In ws wss -> ~ names_kind kind ws
  end.
Proof.
  induction wss as [|ws rest IH]; intros i; simpl; [by intros ? []|].
  destruct (existsb _ _) eqn:E.
  - split; [lia|]. exists ws. rewrite Nat.sub_diag. split; [done|].
    split; [by apply existsb_aliases|]. intros n ws' Hn. lia.
  - assert (~ names_kind kind ws) as Hws.
    { intros H. apply existsb_aliases in H. congruence. }
    specialize (IH (S i)).
    destruct (pick_from _ (S i) rest) as [j|].
    + destruct IH as (Hj & ws1 & Hl & Hn & Hfirst). split; [lia|].
      exists ws1. replace (j - i)%nat with (S (j - S i)) by lia.
      split; [done|]. split; [done|]. intros n ws' Hlt Hl'.
      destruct n as [|n]; simpl in Hl'; [by injection Hl' as <-|].
      eapply Hfirst; [|done]. lia.
    + intros ws' [<-|Hin]; [done|by apply IH].
Qed.

Lemma pick_sheet_for_kind_spec wb kind :
  match pick_sheet_for_kind wb kind with
  | Some i =>
    exists ws, wb !! i = Some ws /\ names_kind kind ws /\
      forall j ws', (j < i)%nat -> wb !! j = Some ws' -> ~ names_kind kind ws'
  | None => forall ws, In ws wb -> ~ names_kind kind ws
  end.
Proof.
  unfold pick_sheet_for_kind. pose proof (pick_from_spec kind wb 0) as H.
  destruct (pick_from _ 0 wb) as [i|]; [|done].
  destruct H as (_ & ws & Hl & Hn & Hf). rewrite Nat.sub_0_r in *. eauto.
Qed.

Lemma color_cases n :
  (n <= 6 /\ color_fill_for_count n = red) \/
  (7 <= n <= 20 /\ color_fill_for_count n = yellow) \/
  (21 <= n /\ color_fill_for_count n = green).
Proof.
  unfold color_fill_for_count.
  destruct (Z.leb_spec n 6); [left; split; [lia|done]|].
  destruct (Z.leb_spec 7 n); [|lia].
  destruct (Z.leb_spec n 20); simpl; [right; left|right; right]; split; (lia || done).
Qed.

(** ** One turn of the loop *)

(** What [prepare] does to sheet [i]. *)
Lemma prepare_spec st i :
  exists st' qmap rmap,
    prepare st i = Ok st' /\
    header_cache st' = <[i := qmap]> (header_cache st) /\
    row_cache st' = <[i := rmap]> (row_cache st) /\
    cleared st' = {[i]} ∪ cleared st /\
    sheet_cache st' = sheet_cache st /\ written st' = written st /\
    skipped st' = skipped st /\ resolutions st' = resolutions st /\
    match header_cache st !! i with
    | Some q => qmap = q
    | None => build_q_header_map (wb st !!! i) = Ok qmap
    end /\
    match row_cache st !! i with
    | Some m => rmap = m
    | None => build_row_map (wb st !!! i) = Ok rmap
    end /\
    (i ∈ cleared st -> wb st' = wb st) /\
    (i ∉ cleared st -> exists ws',
       clear_non_location_rows (wb st !!! i) qmap = Ok ws' /\
       wb st' = <[i := ws']> (wb st)).
Proof.
  unfold prepare.
  assert (exists st1 qmap, ensure_header st i = Ok st1 /\
    header_cache st1 = <[i := qmap]> (header_cache st) /\
    header_cache st1 !! i = Some qmap /\
    row_cache st1 = row_cache st /\ cleared st1 = cleared st /\
    sheet_cache st1 = sheet_cache st /\ written st1 = written st /\
    skipped st1 = skipped st /\ resolutions st1 = resolutions st /\
    wb st1 = wb st /\
    match header_cache st !! i with
    | Some q => qmap = q
    | None => build_q_header_map (wb st !!! i) = Ok qmap
    end) as (st1 & qmap & -> & Hh & Hhi & Hr1 & Hc1 & Hs1 & Hw1 & Hk1 & Hres1 & Hwb1 & Hq).
  { unfold ensure_header. destruct (header_cache st !! i) as [q|] eqn:E.
    - exists st, q. rewrite insert_id by done. repeat split; done.
    - destruct (build_q_header_map_spec (wb st !!! i)) as (q & Hq & _).
      rewrite Hq. simpl. eexists _, q. split; [reflexivity|]. simpl.
      rewrite lookup_insert_eq. repeat split; done. }
  cbn [rbind].
  assert (exists st2 rmap, ensure_rows st1 i = Ok st2 /\
    row_cache st2 = <[i := rmap]> (row_cache st1) /\
    header_cache st2 = header_cache st1 /\ cleared st2 = cleared st1 /\
    sheet_cache st2 = sheet_cache st1 /\ written st2 = written st1 /\
    skipped st2 = skipped st1 /\ resolutions st2 = resolutions st1 /\
    wb st2 = wb st1 /\
    match row_cache st1 !! i with
    | Some m => rmap = m
    | None => build_row_map (wb st1 !!! i) = Ok rmap
    end) as (st2 & rmap & -> & Hr2 & Hh2 & Hc2 & Hs2 & Hw2 & Hk2 & Hres2 & Hwb2 & Hm).
  { unfold ensure_rows. destruct (row_cache st1 !! i) as [m|] eqn:E.
    - exists st1, m. rewrite insert_id by done. repeat split; done.
    - destruct (build_row_map_spec (wb st1 !!! i)) as (m & Hm & _).
      rewrite Hm. simpl. eexists _, m. split; [reflexivity|]. simpl.
      repeat split; done. }
  cbn [rbind]. unfold ensure_cleared.
  assert (header_cache st2 !!! i = qmap) as Hqi.
  { unfold lookup_total, map_lookup_total. by rewrite Hh2, Hhi. }
  rewrite Hr1 in Hr2, Hm. rewrite Hwb1 in Hm.
  destruct (decide (i ∈ cleared st2)) as [Hin|Hout].
  - exists st2, qmap, rmap. split; [done|].
    rewrite Hh2, Hc2, Hc1, Hs2, Hs1, Hw2, Hw1, Hk2, Hk1, Hres2, Hres1, Hwb2, Hwb1.
    rewrite Hc2, Hc1 in Hin.
    repeat split; try done.
    + apply set_eq. intros j. rewrite elem_of_union, elem_of_singleton.
      split; [by right|]. intros [->|?]; done.
  - rewrite Hqi.
    destruct (clear_non_location_rows_spec (wb st2 !!! i) qmap) as (ws' & Hcl & _).
    rewrite Hcl. cbn [rbind]. eexists _, qmap, rmap. split; [reflexivity|]. simpl.
    rewrite Hh2, Hc2, Hc1, Hs2, Hs1, Hw2, Hw1, Hk2, Hk1, Hres2, Hres1, Hwb2, Hwb1.
    rewrite Hc2, Hc1 in Hout. rewrite Hwb2, Hwb1 in Hcl.
    repeat split; try done. intros _. eauto.
Qed.

Lemma resolve_sheet_frame st e st1 o :
  resolve_sheet st e = (st1, o) ->
  wb st1 = wb st /\ header_cache st1 = header_cache st /\
  row_cache st1 = row_cache st /\ cleared st1 = cleared st /\
  written st1 = written st /\ skipped st1 = skipped st.
Proof.
  unfold resolve_sheet.
  destruct (default None (sheet_cache st !! kind e)); intros [= <- <-]; done.
Qed.

Lemma lookup_total_insert_eq_gmap {V} `{Inhabited V} (m : gmap nat V) i x :
  (<[i := x]> m) !!! i = x.
Proof. unfold lookup_total, map_lookup_total. by rewrite lookup_insert_eq. Qed.

(** C6: for an entry whose sheet was resolved, a failed row lookup skips
    the entry with the reason "location not found in column A", also
    when the column lookup would fail too; a failed column lookup after
    a successful row lookup skips it with "question number not found in
    header"; in both cases no count is written (the workbook is the one
    the preparation of the sheet left, which differs from the workbook
    before the entry at most by the one-off clearing of that sheet), the
    counter stays, and the loop goes on with the next entry. *)
Theorem skip_reasons st e st1 i :
  resolve_sheet st e = (st1, Some i) -> skip_outcome st e i st1.
Proof.
  intros Hres.
  destruct (resolve_sheet_frame _ _ _ _ Hres) as (Hwb & Hh & Hr & Hc & Hw & Hk).
  destruct (prepare_spec st1 i)
    as (st2 & qmap & rmap & Hp & Hh2 & Hr2 & Hc2 & Hs2 & Hw2 & Hk2 & _ & _ & _ & Hin & Hout).
  exists st2, qmap, rmap. split; [done|].
  split; [rewrite Hh2; apply lookup_insert_eq|].
  split; [rewrite Hr2; apply lookup_insert_eq|].
  assert (header_cache st2 !!! i = qmap) as Hqi
    by (rewrite Hh2; apply lookup_total_insert_eq_gmap).
  assert (row_cache st2 !!! i = rmap) as Hri
    by (rewrite Hr2; apply lookup_total_insert_eq_gmap).
  split.
  { rewrite Hc, Hwb in *. destruct (decide (i ∈ cleared st)); [left|right]; auto. }
  split.
  - intros Hrow. eexists. split.
    + unfold step. rewrite Hres, Hp. cbn [rbind]. unfold place.
      rewrite Hqi, Hri, Hrow. reflexivity.
    + simpl. rewrite Hk2, Hk, Hw2, Hw. repeat split; try done.
      intros rest. simpl. unfold step. rewrite Hres, Hp. cbn [rbind].
      unfold place. by rewrite Hqi, Hri, Hrow.
  - intros [r Hrow] Hcol. eexists. split.
    + unfold step. rewrite Hres, Hp. cbn [rbind]. unfold place.
      rewrite Hqi, Hri, Hrow, Hcol. reflexivity.
    + simpl. rewrite Hk2, Hk, Hw2, Hw. repeat split; try done.
      intros rest. simpl. unfold step. rewrite Hres, Hp. cbn [rbind].
      unfold place. by rewrite Hqi, Hri, Hrow, Hcol.
Qed.

Lemma skip_reasons_witness :
  skip_outcome (init [demo_sheet]) (demo_entry "BW" "Z" 9 5) 0
    (resolve_sheet (init [demo_sheet]) (demo_entry "BW" "Z" 9 5)).1.
Proof.
  apply skip_reasons. vm_compute. reflexivity.
Defined.

(** ** The whole run *)

Lemma pick_from_titles aliases : forall wb1 wb2 i,
  map title wb1 = map title wb2 ->
  pick_from aliases i wb1 = pick_from aliases i wb2.
Proof.
  induction wb1 as [|ws1 wb1 IH]; intros [|ws2 wb2] i E; try done.
  simpl in *. injection E as -> E. by rewrite (IH wb2 (S i) E).
Qed.

Lemma pick_sheet_titles wb1 wb2 k :
  map title wb1 = map title wb2 ->
  pick_sheet_for_kind wb1 k = pick_sheet_for_kind wb2 k.
Proof. intros E. by apply pick_from_titles. Qed.

Lemma pick_sheet_lt wb k i :
  pick_sheet_for_kind wb k = Some i -> (i < length wb)%nat.
Proof.
  intros H. pose proof (pick_sheet_for_kind_spec wb k) as Hs. rewrite H in Hs.
  destruct Hs as (ws & Hl & _). by apply lookup_lt_Some in Hl.
Qed.

Lemma titles_insert (l : list Worksheet) i x :
  title x = title (l !!! i) -> map title (<[i := x]> l) = map title l.
Proof.
  revert i. induction l as [|y l IH]; intros i E; [done|].
  destruct i as [|i]; simpl in *; [by rewrite E|]. f_equal. by apply IH.
Qed.

Lemma titles_length (l1 l2 : list Worksheet) :
  map title l1 = map title l2 -> length l1 = length l2.
Proof. intros E. by rewrite <- (length_map title l1), E, length_map. Qed.

Lemma last_hits_snoc w i r c es e :
  last (hits w i r c (es ++ [e])) =
    if decide (target w e = Some (i, r, c)) then Some e
    else last (hits w i r c es).
Proof.
  unfold hits. rewrite filter_app. case_decide as H.
  - rewrite filter_cons_True, filter_nil by done. apply last_snoc.
  - rewrite filter_cons_False, filter_nil by done. by rewrite app_nil_r.
Qed.

Lemma write_one_title ws r c v : title (write_one ws r c v) = title ws.
Proof. done. Qed.

Lemma Inv_init w : Inv w [] (init w).
Proof.
  split; simpl; done.
Qed.

Lemma Inv_skip w es st e why :
  Inv w es st -> target w e = None -> Inv w (es ++ [e]) (with_skip st e why).
Proof.
  intros [H1 H2 H3 H4 H5 H6] Ht. split; simpl; try done.
  - intros i r c e0. rewrite last_hits_snoc, Ht.
    case_decide; [done|]. apply H5.
  - intros e0 why0 Hin. apply in_app_iff in Hin as [Hin|[[= <- <-]|[]]]; [|done].
    by eapply H6.
Qed.

Lemma Inv_resolve w es st e st1 o :
  Inv w es st -> resolve_sheet st e = (st1, o) ->
  Inv w es st1 /\ o = pick_sheet_for_kind w (kind e).
Proof.
  intros [H1 H2 H3 H4 H5 H6]. unfold resolve_sheet.
  destruct (sheet_cache st !! kind e) as [[i|]|] eqn:E; simpl; intros [= <- <-].
  - split; [by split|]. symmetry. by apply H2.
  - split; [|by apply pick_sheet_titles].
    split; simpl; try done. intros k i. rewrite lookup_insert.
    case_decide as Hk; [|by apply H2]. subst k.
    intros [= <-]. symmetry. by apply pick_sheet_titles.
  - split; [|by apply pick_sheet_titles].
    split; simpl; try done. intros k i. rewrite lookup_insert.
    case_decide as Hk; [|by apply H2]. subst k.
    intros [= <-]. symmetry. by apply pick_sheet_titles.
Qed.

Lemma Inv_prepare w es st i :
  Inv w es st -> (i < length w)%nat ->
  exists st2 q m, prepare st i = Ok st2 /\ Inv w es st2 /\
    i ∈ cleared st2 /\
    header_cache st2 !!! i = q /\ row_cache st2 !!! i = m /\
    build_q_header_map (w !!! i) = Ok q /\ build_row_map (w !!! i) = Ok m /\
    written st2 = written st /\ skipped st2 = skipped st /\
    resolutions st2 = resolutions st.
Proof.
  intros [H1 H2 H3 H4 H5 H6] Hi.
  destruct (prepare_spec st i)
    as (st2 & q & m & Hp & Hh2 & Hr2 & Hc2 & Hs2 & Hw2 & Hk2 & Hres2 & Hq & Hm & Hin & Hout).
  assert (build_q_header_map (w !!! i) = Ok q /\ build_row_map (w !!! i) = Ok m)
    as [Hbq Hbm].
  { destruct (decide (i ∈ cleared st)) as [Hc|Hc].
    - destruct (H3 i Hc) as (q0 & m0 & E1 & E2 & B1 & B2).
      rewrite E1 in Hq. rewrite E2 in Hm. by subst.
    - destruct (H4 i Hc) as (E1 & E2 & E3).
      rewrite E1 in Hq. rewrite E2 in Hm. by rewrite E3 in Hq, Hm. }
  exists st2, q, m. split; [done|].
  assert (map title (wb st2) = map title w) as Ht2.
  { destruct (decide (i ∈ cleared st)) as [Hc|Hc]; [by rewrite (Hin Hc)|].
    destruct (Hout Hc) as (ws' & Hcl & ->).
    destruct (clear_non_location_rows_spec (wb st !!! i) q) as (ws2 & Hcl2 & Ht & _).
    rewrite Hcl in Hcl2. injection Hcl2 as <-.
    by rewrite titles_insert. }
  assert (forall j, j <> i \/ i ∈ cleared st -> wb st2 !!! j = wb st !!! j) as Hwbj.
  { intros j Hj. destruct (decide (i ∈ cleared st)) as [Hc|Hc]; [by rewrite (Hin Hc)|].
    destruct Hj as [Hj|Hj]; [|done].
    destruct (Hout Hc) as (ws' & _ & ->).
    by rewrite list_lookup_total_insert_ne. }
  assert (forall j, j ∈ cleared st2 <-> j = i \/ j ∈ cleared st) as Hcl2.
  { intros j. by rewrite Hc2, elem_of_union, elem_of_singleton. }
  split; [|rewrite Hh2, Hr2, !lookup_total_insert_eq_gmap;
           repeat split; try done; apply Hcl2; by left].
  split.
  - done.
  - by rewrite Hs2.
  - intros j Hj. rewrite Hh2, Hr2. apply Hcl2 in Hj.
    destruct (decide (j = i)) as [->|Hne].
    + exists q, m. by rewrite !lookup_insert_eq.
    + rewrite !lookup_insert_ne by done. apply H3. by destruct Hj.
  - intros j Hj.
    assert (j <> i) as Hne by (intros ->; apply Hj, Hcl2; by left).
    assert (j ∉ cleared st) as Hjc by (intros Hin'; apply Hj, Hcl2; by right).
    rewrite Hh2, Hr2, !lookup_insert_ne by done.
    destruct (H4 j Hjc) as (E1 & E2 & E3). rewrite Hwbj by auto. done.
  - intros j r c e Hl. destruct (H5 j r c e Hl) as [Hjc Hcell].
    split; [apply Hcl2; by right|].
    rewrite Hwbj; [done|].
    destruct (decide (j = i)) as [->|Hne]; auto.
  - by rewrite Hk2.
Qed.

Lemma ws_cell_write_eq ws r c v : ws_cell (write_one ws r c v) r c = counted v.
Proof. apply ws_cell_set_eq. Qed.

Lemma ws_cell_write_ne ws r c v r' c' :
  (r, c) <> (r', c') -> ws_cell (write_one ws r c v) r' c' = ws_cell ws r' c'.
Proof. apply ws_cell_set_ne. Qed.

Lemma Inv_step w es st e :
  Inv w es st ->
  exists st', step st e = Ok st' /\ Inv w (es ++ [e]) st' /\
    written st' = (written st + if decide (is_Some (target w e)) then 1 else 0)%nat.
Proof.
  intros HI. unfold step.
  destruct (resolve_sheet st e) as [st1 o] eqn:Hres.
  destruct (Inv_resolve _ _ _ _ _ _ HI Hres) as [HI1 ->].
  destruct (resolve_sheet_frame _ _ _ _ Hres) as (_ & _ & _ & _ & Hw1 & _).
  destruct (pick_sheet_for_kind w (kind e)) as [i|] eqn:Hpick.
  - assert (i < length w)%nat as Hi by (by eapply pick_sheet_lt).
    destruct (Inv_prepare _ _ _ _ HI1 Hi)
      as (st2 & q & m & -> & HI2 & Hc2 & Hq & Hm & Hbq & Hbm & Hw2 & _).
    cbn [rbind]. eexists. split; [reflexivity|].
    unfold place. rewrite Hq, Hm.
    assert (target w e =
      match m !! (block e, level e, side e), q !! qnum e with
      | Some r, Some c => Some (i, r, c)
      | _, _ => None
      end) as Ht by (unfold target; by rewrite Hpick, Hbq, Hbm).
    destruct (m !! (block e, level e, side e)) as [r|] eqn:Er.
    + destruct (q !! qnum e) as [c|] eqn:Ec.
      * split; [|rewrite Ht; case_decide as Hd; [simpl; lia|destruct Hd; eauto]].
        destruct HI2 as [H1 H2 H3 H4 H5 H6].
        assert (i < length (wb st2))%nat as Hi2
          by (by rewrite (titles_length _ _ H1)).
        split; simpl; try done.
        -- rewrite titles_insert; done.
        -- intros j Hj. destruct (H4 j Hj) as (E1 & E2 & E3).
           repeat split; try done.
           rewrite list_lookup_total_insert_ne; [done|]. by intros ->.
        -- intros j r0 c0 e0. rewrite last_hits_snoc, Ht. case_decide as Hd.
           ++ injection Hd as <- <- <-. intros [= <-]. split; [done|].
              rewrite list_lookup_total_insert_eq by done.
              apply ws_cell_write_eq.
           ++ intros Hl. destruct (H5 j r0 c0 e0 Hl) as [Hjc Hcell].
              split; [done|]. destruct (decide (j = i)) as [->|Hne].
              ** rewrite list_lookup_total_insert_eq by done.
                 rewrite ws_cell_write_ne; [done|]. congruence.
              ** rewrite list_lookup_total_insert_ne; done.
      * split; [by apply Inv_skip|].
        rewrite Ht. case_decide as Hd; [by destruct Hd|simpl; lia].
    + split; [by apply Inv_skip|].
      rewrite Ht. case_decide as Hd; [by destruct Hd|simpl; lia].
  - assert (target w e = None) as Ht by (unfold target; by rewrite Hpick).
    eexists. split; [reflexivity|]. split; [by apply Inv_skip|].
    rewrite Ht. case_decide as Hd; [by destruct Hd|simpl; lia].
Qed.

Lemma Inv_run w rest : forall es st,
  Inv w es st ->
  exists st', run_entries st rest = Ok st' /\ Inv w (es ++ rest) st' /\
    written st' = (written st + length (filter (fun e => is_Some (target w e)) rest))%nat.
Proof.
  induction rest as [|e rest IH]; intros es st HI.
  - exists st. rewrite app_nil_r. simpl. split; [done|]. split; [done|lia].
  - destruct (Inv_step _ _ _ e HI) as (st1 & Hs & HI1 & Hw1). simpl. rewrite Hs.
    cbn [rbind]. destruct (IH _ _ HI1) as (st' & Hr & HI' & Hw').
    exists st'. split; [done|]. rewrite <- app_assoc in HI'. split; [done|].
    rewrite Hw', Hw1. rewrite filter_cons.
    case_decide; simpl; lia.
Qed.

(** C10: when entries of the run resolve to one worksheet, row and
    column, the cell holds, after the run, the count of the last of
    them in parse order, filled with the colour of that count; every
    entry that resolves is counted as written, one by one, and none of
    them is reported as skipped. *)
Theorem last_entry_wins entries w i r c e :
  last (hits w i r c entries) = Some e ->
  exists st, process entries w = Ok st /\
    ws_cell (wb st !!! i) r c = counted (count e) /\
    written st = length (filter (fun e' => is_Some (target w e')) entries) /\
    (forall e' why, In (e', why) (skipped st) -> target w e' = None).
Proof.
  intros Hl. unfold process.
  destruct (Inv_run w entries [] (init w) (Inv_init w)) as (st & Hr & HI & Hw).
  exists st. split; [done|]. simpl in HI, Hw.
  split; [by apply (inv_cells _ _ _ HI)|]. split; [done|].
  apply (inv_skipped _ _ _ HI).
Qed.

Lemma last_entry_wins_witness :
  exists st,
    process [demo_entry "BW" "A" 4 12; demo_entry "BW" "A" 4 3] [demo_sheet] = Ok st /\
    ws_cell (wb st !!! 0%nat) 3 4 = counted 3 /\
    written st = length (filter (fun e' => is_Some (target [demo_sheet] e'))
                   [demo_entry "BW" "A" 4 12; demo_entry "BW" "A" 4 3]) /\
    (forall e' why, In (e', why) (skipped st) -> target [demo_sheet] e' = None).
Proof.
  apply (last_entry_wins _ _ _ _ _ (demo_entry "BW" "A" 4 3)).
  vm_compute. reflexivity.
Defined.

(** C3, on a run that breaks it: two entries of kind "SR" on a workbook
    whose only sheet is "Brickwork".  The first call of
    [pick_sheet_for_kind] finds nothing and [None] is stored in the
    cache; the stored [None] reads like a missing key, so the second
    entry calls [pick_sheet_for_kind] again. *)
Theorem missing_sheet_resolved_again :
  match process [demo_entry "SR" "A" 4 12; demo_entry "SR" "A" 4 3] [demo_sheet] with
  | Ok st =>
    resolutions st = [lit "SR"; lit "SR"] /\
    sheet_cache st !! lit "SR" = Some None
  | Raised _ => False
  end.
Proof. vm_compute. split; reflexivity. Qed.

(** ** Calls of the sheet resolver *)

Lemma step_cache st e st1 o st' :
  resolve_sheet st e = (st1, o) -> step st e = Ok st' ->
  sheet_cache st' = sheet_cache st1 /\ resolutions st' = resolutions st1.
Proof.
  intros Hres. unfold step. rewrite Hres. destruct o as [i|].
  - destruct (prepare_spec st1 i)
      as (st2 & q & m & -> & _ & _ & _ & Hs & _ & _ & Hr & _).
    cbn [rbind]. intros [= <-]. unfold place.
    destruct (_ !! (block e, level e, side e)); [destruct (_ !! qnum e)|]; done.
  - by intros [= <-].
Qed.

Lemma uses_snoc k es e :
  uses k (es ++ [e]) = (uses k es + if decide (kind e = k) then 1 else 0)%nat.
Proof.
  unfold uses. rewrite filter_app, length_app, filter_cons, filter_nil.
  by case_decide.
Qed.

Lemma calls_snoc k st x rs :
  resolutions st = rs ++ [x] ->
  calls k st = (length (filter (fun y => y = k) rs) + if decide (x = k) then 1 else 0)%nat.
Proof.
  unfold calls. intros ->. rewrite filter_app, length_app, filter_cons, filter_nil.
  by case_decide.
Qed.

Lemma Calls_init w : Calls w [] (init w).
Proof.
  split; intros k; simpl.
  - by rewrite lookup_empty.
  - unfold calls, uses. simpl. by destruct (pick_sheet_for_kind w k).
Qed.

Lemma uses_snoc_same es e : uses (kind e) (es ++ [e]) = S (uses (kind e) es).
Proof. rewrite uses_snoc, decide_True by done. lia. Qed.

Lemma uses_snoc_other k es e : kind e <> k -> uses k (es ++ [e]) = uses k es.
Proof. intros H. rewrite uses_snoc, decide_False by done. lia. Qed.

Lemma Calls_step w es st e st' :
  Inv w es st -> Calls w es st -> step st e = Ok st' ->
  Calls w (es ++ [e]) st'.
Proof.
  intros HI [Hc Hn] Hs.
  destruct (resolve_sheet st e) as [st1 o] eqn:Hres.
  destruct (step_cache _ _ _ _ _ Hres Hs) as [Ec Er].
  pose proof (pick_sheet_titles _ _ (kind e) (inv_titles _ _ _ HI)) as Hp.
  unfold resolve_sheet in Hres. pose proof (Hc (kind e)) as Hce.
  destruct (default None (sheet_cache st !! kind e)) as [i|] eqn:Ed;
    injection Hres as <- <-.
  - (* cached: no call *)
    destruct (sheet_cache st !! kind e) as [[j|]|] eqn:El; simpl in Ed; try done.
    injection Ed as ->. case_decide as Hu; [done|]. injection Hce as Hpick.
    split; intros k; destruct (decide (kind e = k)) as [<-|Hk].
    + rewrite Ec, El, uses_snoc_same. rewrite decide_False by lia. by rewrite Hpick.
    + rewrite Ec, uses_snoc_other by done. apply Hc.
    + unfold calls. rewrite Er. fold (calls (kind e) st).
      rewrite Hn, uses_snoc_same, <- Hpick. lia.
    + unfold calls. rewrite Er. fold (calls k st).
      rewrite Hn, uses_snoc_other by done. done.
  - (* not cached: a call, stored *)
    assert (uses (kind e) es = 0%nat \/ pick_sheet_for_kind w (kind e) = None) as Hwhy.
    { case_decide as Hu; [by left|right].
      rewrite Hce in Ed. simpl in Ed. done. }
    split; intros k; destruct (decide (kind e = k)) as [<-|Hk].
    + rewrite Ec. simpl. rewrite lookup_insert_eq, uses_snoc_same.
      rewrite decide_False by lia. by rewrite Hp.
    + rewrite Ec. simpl. rewrite lookup_insert_ne, uses_snoc_other by done. apply Hc.
    + rewrite (calls_snoc (kind e) st' (kind e) (resolutions st)) by (by rewrite Er).
      fold (calls (kind e) st). rewrite Hn, uses_snoc_same, decide_True by done.
      destruct Hwhy as [Hu|Hnone].
      * rewrite Hu. destruct (pick_sheet_for_kind w (kind e)); simpl; lia.
      * rewrite Hnone. lia.
    + rewrite (calls_snoc k st' (kind e) (resolutions st)) by (by rewrite Er).
      fold (calls k st). rewrite Hn, uses_snoc_other, decide_False by done. lia.
Qed.

Lemma Calls_run w rest : forall es st st',
  Inv w es st -> Calls w es st -> run_entries st rest = Ok st' ->
  Calls w (es ++ rest) st'.
Proof.
  induction rest as [|e rest IH]; intros es st st' HI HC Hr; simpl in Hr.
  - injection Hr as <-. by rewrite app_nil_r.
  - destruct (Inv_step _ _ _ e HI) as (st1 & Hs & HI1 & _). rewrite Hs in Hr.
    cbn [rbind] in Hr. rewrite (app_assoc es [e] rest : es ++ e :: rest = (es ++ [e]) ++ rest).
    eapply IH; [done| |done]. by eapply Calls_step.
Qed.

(** X1: the run never raises; for a kind that resolves to a worksheet
    [pick_sheet_for_kind] is called once if an entry has the kind and
    never otherwise, and for a kind that resolves to none it is called
    once for each entry of the kind. *)
Theorem resolution_calls entries w :
  exists st, process entries w = Ok st /\
    forall k, calls k st =
      match pick_sheet_for_kind w k with
      | Some _ => Nat.min 1 (uses k entries)
      | None => uses k entries
      end.
Proof.
  unfold process.
  destruct (Inv_run w entries [] (init w) (Inv_init w)) as (st & Hr & _).
  exists st. split; [done|].
  apply (calls_count w entries st).
  apply (Calls_run w entries [] (init w) st (Inv_init w) (Calls_init w) Hr).
Qed.

(** ** Report lines *)










(** ** The shape of a report line *)



















(** ** The order of the level clause *)

















(** *** Labels with one level clause *)













(** ** Cleaner, indices, colours, labels and sheets *)

(** C2: the cleaner never raises; in a data row whose column A is no
    location, the cells at the columns the header index lists become
    blank (no value, no fill) and the cells at all other columns stay;
    in a row whose column A is a location every cell stays, whatever it
    holds; rows that are no data rows stay too. *)
Theorem stale_rows_cleared ws qmap :
  exists ws', clear_non_location_rows ws qmap = Ok ws' /\
    title ws' = title ws /\ max_row ws' = max_row ws /\
    max_column ws' = max_column ws /\
    forall r c,
      (is_data_row ws r -> loc_of (value (ws_cell ws r 1)) = None ->
         (listed qmap c -> ws_cell ws' r c = blank) /\
         (~ listed qmap c -> ws_cell ws' r c = ws_cell ws r c)) /\
      (loc_of (value (ws_cell ws r 1)) <> None ->
         ws_cell ws' r c = ws_cell ws r c) /\
      (~ is_data_row ws r -> ws_cell ws' r c = ws_cell ws r c).
Proof.
  destruct (clear_non_location_rows_spec ws qmap) as (ws' & H & Ht & Hr & Hc & Hcells).
  exists ws'. repeat split; try done.
  - intros Hl. by apply Hcells.
  - intros Hl. apply Hcells. auto.
  - intros Hl. apply Hcells. auto.
  - intros Hl. apply Hcells. auto.
Qed.

Lemma stale_rows_cleared_witness :
  exists ws', clear_non_location_rows demo_sheet {[4 := 4%nat]} = Ok ws' /\
    ws_cell ws' 2 4 = blank /\
    ws_cell ws' 2 1 = ws_cell demo_sheet 2 1 /\
    ws_cell ws' 3 1 = ws_cell demo_sheet 3 1.
Proof.
  destruct (stale_rows_cleared demo_sheet {[4 := 4%nat]})
    as (ws' & H & _ & _ & _ & Hc).
  exists ws'. split; [exact H|].
  assert (is_data_row demo_sheet 2) as Hrow by (unfold is_data_row; simpl; lia).
  assert (loc_of (value (ws_cell demo_sheet 2 1)) = None) as Hloc
    by (vm_compute; reflexivity).
  split; [|split].
  - apply (proj1 (proj1 (Hc 2%nat 4%nat) Hrow Hloc)).
    exists 4. apply lookup_singleton_eq.
  - apply (proj2 (proj1 (Hc 2%nat 1%nat) Hrow Hloc)).
    intros [q Hq]. apply lookup_singleton_Some in Hq as [_ Hq]. discriminate Hq.
  - apply (proj1 (proj2 (Hc 3%nat 1%nat))). vm_compute. discriminate.
Defined.

Lemma least_below (P : nat -> Prop) (Hdec : forall n, Decision (P n)) n :
  P n -> exists m, (m <= n)%nat /\ P m /\ forall k, (k < m)%nat -> ~ P k.
Proof.
  assert (forall b, (exists m, (m < b)%nat /\ P m /\ forall k, (k < m)%nat -> ~ P k) \/
                    (forall k, (k < b)%nat -> ~ P k)) as H.
  { induction b as [|b [(m & Hm & HP & Hmin)|Hno]].
    - right. intros k Hk. lia.
    - left. exists m. split; [lia|done].
    - destruct (decide (P b)) as [HP|HP].
      + left. exists b. split; [lia|done].
      + right. intros k Hk. destruct (decide (k = b)) as [->|Hne]; [done|].
        apply Hno. lia. }
  intros Hn. destruct (H (S n)) as [(m & Hm & HP & Hmin)|Hno].
  - exists m. split; [lia|done].
  - destruct (Hno n); [lia|done].
Qed.

(** C5: the row index maps a key to the topmost data row that reads as
    that key, so of two rows with the same key the upper one or one
    above it is indexed; the header index maps a question number to the
    rightmost header cell with that number, so of two cells with the
    same number the right one or one further right is indexed. *)
Theorem first_row_last_column ws :
  (exists rmap, build_row_map ws = Ok rmap /\
     (forall k r, rmap !! k = Some r <-> first_row ws k r) /\
     (forall k r1 r2, is_data_row ws r1 -> is_data_row ws r2 -> (r1 < r2)%nat ->
        loc_of (value (ws_cell ws r1 1)) = Some k ->
        loc_of (value (ws_cell ws r2 1)) = Some k ->
        exists r, rmap !! k = Some r /\ (r <= r1)%nat)) /\
  (exists qmap, build_q_header_map ws = Ok qmap /\
     (forall q j, qmap !! q = Some j <-> last_col ws q j) /\
     (forall q j1 j2, (1 <= j1)%nat -> (j1 < j2 <= max_column ws)%nat ->
        header_q (ws_cell ws 1 j1) = Some q ->
        header_q (ws_cell ws 1 j2) = Some q ->
        exists j, qmap !! q = Some j /\ (j2 <= j)%nat)).
Proof.
  split.
  - destruct (build_row_map_spec ws) as (rmap & H & Hspec).
    exists rmap. split; [done|]. split; [done|].
    intros k r1 r2 Hr1 _ _ Hk1 _.
    destruct (least_below
      (fun r => is_data_row ws r /\ loc_of (value (ws_cell ws r 1)) = Some k) _ r1)
      as (r & Hle & [Hr Hk] & Hmin); [done|].
    exists r. split; [|done]. apply Hspec. split; [done|]. split; [done|].
    intros r' Hr' Hlt Hk'. by apply (Hmin r' Hlt).
  - destruct (build_q_header_map_spec ws) as (qmap & H & Hspec).
    exists qmap. split; [done|]. split; [done|].
    intros q j1 j2 Hj1 Hj2 _ Hq2.
    set (P := fun d => (d <= max_column ws - 1)%nat /\
                header_q (ws_cell ws 1 (max_column ws - d)) = Some q).
    destruct (least_below P _ (max_column ws - j2)) as (d & Hle & [Hd Hq] & Hmin).
    { split; [lia|]. by replace (max_column ws - (max_column ws - j2))%nat with j2 by lia. }
    exists (max_column ws - d)%nat. split; [|lia]. apply Hspec.
    split; [lia|]. split; [done|]. intros j' Hj' Hq'.
    apply (Hmin (max_column ws - j')%nat); [lia|]. split; [lia|].
    by replace (max_column ws - (max_column ws - j'))%nat with j' by lia.
Qed.

Lemma first_row_last_column_witness :
  (exists rmap r, build_row_map demo_sheet = Ok rmap /\
     rmap !! (lit "A", 3, lit "East") = Some r /\ (r <= 3)%nat) /\
  (exists qmap j, build_q_header_map demo_header_sheet = Ok qmap /\
     qmap !! 4 = Some j /\ (3 <= j)%nat).
Proof.
  split.
  - destruct (first_row_last_column demo_sheet) as [(rmap & H & _ & Hd) _].
    destruct (Hd (lit "A", 3, lit "East") 3%nat 4%nat) as (r & Hr & Hle).
    + unfold is_data_row; simpl; lia.
    + unfold is_data_row; simpl; lia.
    + lia.
    + vm_compute; reflexivity.
    + vm_compute; reflexivity.
    + exists rmap, r. split; [exact H|]. split; [exact Hr|exact Hle].
  - destruct (first_row_last_column demo_header_sheet) as [_ (qmap & H & _ & Hd)].
    destruct (Hd 4 2%nat 3%nat) as (j & Hj & Hle).
    + lia.
    + simpl; lia.
    + vm_compute; reflexivity.
    + vm_compute; reflexivity.
    + exists qmap, j. split; [exact H|]. split; [exact Hj|exact Hle].
Defined.

(** C7: the colour is a function of the count alone: red up to 6,
    yellow from 7 to 20, green from 21; the three cases cover every
    count and exclude each other, and the three fills differ; after
    [write_one] the cell holds the count and exactly that fill, whatever
    it held before. *)
Theorem color_by_count :
  (forall n,
     (n <= 6 /\ color_fill_for_count n = red) \/
     (7 <= n <= 20 /\ color_fill_for_count n = yellow) \/
     (21 <= n /\ color_fill_for_count n = green)) /\
  (red <> yellow /\ red <> green /\ yellow <> green) /\
  (forall ws r c v,
     value (ws_cell (write_one ws r c v) r c) = VInt v /\
     fill (ws_cell (write_one ws r c v) r c) = color_fill_for_count v).
Proof.
  split; [exact color_cases|]. split; [repeat split; discriminate|].
  intros ws r c v. by rewrite ws_cell_write_eq.
Qed.



(** C9: with the aliases "brickwork" for "BW" and the five spellings
    for "SR", [pick_sheet_for_kind] returns the first sheet, in workbook
    order, whose title contains an alias of the kind in any case, and
    nothing when no title does. *)
Theorem sheet_for_kind :
  SHEET_ALIASES (lit "BW") = [lit "brickwork"] /\
  SHEET_ALIASES (lit "SR") =
    [lit "sideraise"; lit "siderise"; lit "side raise"; lit "side-raise";
     lit "side rise"] /\
  forall wb kind,
    match pick_sheet_for_kind wb kind with
    | Some i =>
      exists ws, wb !! i = Some ws /\ names_kind kind ws /\
        forall j ws', (j < i)%nat -> wb !! j = Some ws' -> ~ names_kind kind ws'
    | None => forall ws, In ws wb -> ~ names_kind kind ws
    end.
Proof.
  split; [done|]. split; [done|]. exact pick_sheet_for_kind_spec.
Qed.

Lemma sheet_for_kind_witness :
  (exists ws, [demo_sheet; demo_header_sheet] !! 0%nat = Some ws /\
     names_kind (lit "BW") ws) /\
  (exists ws, [demo_sheet; demo_header_sheet] !! 1%nat = Some ws /\
     names_kind (lit "SR") ws /\ ~ names_kind (lit "SR") demo_sheet) /\
  (forall ws, In ws [demo_sheet] -> ~ names_kind (lit "SR") ws).
Proof.
  destruct sheet_for_kind as (_ & _ & H).
  pose proof (H [demo_sheet; demo_header_sheet] (lit "BW")) as H1.
  pose proof (H [demo_sheet; demo_header_sheet] (lit "SR")) as H2.
  pose proof (H [demo_sheet] (lit "SR")) as H3.
  assert (pick_sheet_for_kind [demo_sheet; demo_header_sheet] (lit "BW") = Some 0%nat)
    as E1 by (vm_compute; reflexivity).
  assert (pick_sheet_for_kind [demo_sheet; demo_header_sheet] (lit "SR") = Some 1%nat)
    as E2 by (vm_compute; reflexivity).
  assert (pick_sheet_for_kind [demo_sheet] (lit "SR") = None)
    as E3 by (vm_compute; reflexivity).
  rewrite E1 in H1. rewrite E2 in H2. rewrite E3 in H3.
  destruct H1 as (ws1 & Hw1 & Hn1 & _). destruct H2 as (ws2 & Hw2 & Hn2 & Hf2).
  split; [by exists ws1|]. split; [|exact H3].
  exists ws2. split; [exact Hw2|]. split; [exact Hn2|].
  apply (Hf2 0%nat); [lia|reflexivity].
Defined.

(** The scenario of the specification: the line "12 pictures - Block
    A L3 East BW xyz / 4" against a "Brickwork" sheet with header "4 All
    Clean" in column D and the label "Block A 3-Level 3 / East
    Elevation" in rows 3 and 4 puts 12, filled yellow, in column D of
    row 3, the upper of the two rows; the stale value of row 2 is
    cleared and nothing is skipped. *)
Theorem spec_scenario :
  match parse_txt [lit "12 pictures - Block A L3 East BW xyz / 4"] with
  | Ok es =>
    match process es [demo_sheet] with
    | Ok st =>
      ws_cell (wb st !!! 0%nat) 3 4 = {| value := VInt 12; fill := yellow |} /\
      ws_cell (wb st !!! 0%nat) 4 4 = blank /\
      ws_cell (wb st !!! 0%nat) 2 4 = blank /\
      written st = 1%nat /\ skipped st = []
    | Raised _ => False
    end
  | Raised _ => False
  end.
Proof. vm_compute. repeat split. Qed.

(** ** The run, cell by cell *)

(** One turn of the loop, spelt out on the workbook as loaded. *)
Lemma step_spec w es st e :
  Inv w es st ->
  exists st', step st e = Ok st' /\ Inv w (es ++ [e]) st' /\
    match pick_sheet_for_kind w (kind e) with
    | None =>
      wb st' = wb st /\ cleared st' = cleared st /\ written st' = written st /\
      skipped st' =
        skipped st ++ [(e, lit "sheet for kind '" ++ kind e ++ lit "' not found")]
    | Some i =>
      exists q m wsc,
        build_q_header_map (w !!! i) = Ok q /\ build_row_map (w !!! i) = Ok m /\
        (i < length w)%nat /\
        cleared st' = {[i]} ∪ cleared st /\
        (i ∈ cleared st -> wsc = wb st !!! i) /\
        (i ∉ cleared st -> clear_non_location_rows (w !!! i) q = Ok wsc) /\
        match m !! (block e, level e, side e), q !! qnum e with
        | Some r, Some c =>
          wb st' = <[i := write_one wsc r c (count e)]> (wb st) /\
          written st' = S (written st) /\ skipped st' = skipped st
        | None, _ =>
          wb st' = <[i := wsc]> (wb st) /\ written st' = written st /\
          skipped st' = skipped st ++ [(e, lit "location not found in column A")]
        | Some _, None =>
          wb st' = <[i := wsc]> (wb st) /\ written st' = written st /\
          skipped st' =
            skipped st ++ [(e, lit "question number not found in header")]
        end
    end.
Proof.
  intros HI. destruct (Inv_step _ _ _ e HI) as (st' & Hs & HI' & _).
  exists st'. split; [done|]. split; [done|].
  unfold step in Hs.
  destruct (resolve_sheet st e) as [st1 o] eqn:Hres.
  destruct (Inv_resolve _ _ _ _ _ _ HI Hres) as [HI1 ->].
  destruct (resolve_sheet_frame _ _ _ _ Hres) as (Hwb1 & Hh1 & Hr1 & Hc1 & Hw1 & Hk1).
  destruct (pick_sheet_for_kind w (kind e)) as [i|] eqn:Hpick.
  - assert (i < length w)%nat as Hi by (by eapply pick_sheet_lt).
    destruct (Inv_prepare _ _ _ _ HI1 Hi)
      as (st2 & q & m & Hp & HI2 & Hc2 & Hq & Hm & Hbq & Hbm & Hw2 & Hk2 & _).
    destruct (prepare_spec st1 i)
      as (st2' & q' & m' & Hp' & Hh2 & Hr2 & Hcl2 & _ & _ & _ & _ & Hq' & Hm' & Hin & Hout).
    rewrite Hp in Hp'. injection Hp' as <-.
    rewrite Hp in Hs. cbn [rbind] in Hs. injection Hs as <-.
    assert (q' = q) as ->.
    { rewrite <- Hq, Hh2. by rewrite lookup_total_insert_eq_gmap. }
    assert (i < length (wb st))%nat as Hil.
    { by rewrite (titles_length _ _ (inv_titles _ _ _ HI)). }
    assert (exists wsc, wb st2 = <[i := wsc]> (wb st) /\
              (i ∈ cleared st -> wsc = wb st !!! i) /\
              (i ∉ cleared st -> clear_non_location_rows (w !!! i) q = Ok wsc))
      as (wsc & Hwb2 & Hwin & Hwout).
    { destruct (decide (i ∈ cleared st)) as [Hc|Hc].
      - exists (wb st !!! i). rewrite Hin by (by rewrite Hc1). rewrite Hwb1.
        split; [|done]. symmetry. apply list_insert_id.
        by apply list_lookup_lookup_total_lt.
      - destruct Hout as (ws' & Hcl & Hw'); [by rewrite Hc1|].
        exists ws'. rewrite Hw', Hwb1. split; [done|]. split; [done|].
        intros _. rewrite Hwb1 in Hcl.
        destruct (inv_fresh _ _ _ HI i Hc) as (_ & _ & <-). done. }
    exists q, m, wsc. repeat (split; [done|]).
    split.
    { assert (cleared (place st2 i e) = cleared st2) as ->
        by (unfold place; repeat case_match; done).
      by rewrite Hcl2, Hc1. }
    split; [done|]. split; [done|].
    unfold place. rewrite Hq, Hm.
    destruct (m !! (block e, level e, side e)) as [r|].
    + destruct (q !! qnum e) as [c|]; simpl.
      * rewrite Hw2, Hw1, Hk2, Hk1. split; [|done].
        rewrite Hwb2, list_lookup_total_insert_eq by done.
        by rewrite list_insert_insert_eq.
      * by rewrite Hw2, Hw1, Hk2, Hk1, Hwb2.
    + simpl. by rewrite Hw2, Hw1, Hk2, Hk1, Hwb2.
  - injection Hs as <-. simpl. by rewrite Hwb1, Hc1, Hw1, Hk1.
Qed.


Lemma skips_snoc w es e :
  skips w (es ++ [e]) =
    skips w es ++ match verdict w e with Some why => [(e, why)] | None => [] end.
Proof.
  unfold skips. rewrite omap_app. f_equal. simpl. by destruct (verdict w e).
Qed.

Lemma used_snoc w es e i :
  used w (es ++ [e]) i <-> used w es i \/ pick_sheet_for_kind w (kind e) = Some i.
Proof.
  unfold used. split.
  - intros (e0 & Hin & Hp). apply in_app_iff in Hin as [Hin|[<-|[]]]; eauto.
  - intros [(e0 & Hin & Hp)|Hp].
    + exists e0. split; [|done]. apply in_app_iff. by left.
    + exists e. split; [|done]. apply in_app_iff. right. by left.
Qed.

Lemma stale_listed ws q r c :
  build_q_header_map ws = Ok q ->
  (stale ws r c <->
   is_data_row ws r /\ loc_of (value (ws_cell ws r 1)) = None /\ listed q c).
Proof.
  intros Hq. destruct (build_q_header_map_spec ws) as (q' & Hq' & Hspec).
  rewrite Hq in Hq'. injection Hq' as <-. unfold stale, listed.
  split; intros (H1 & H2 & qn & H3); (split; [done|]; split; [done|]);
    exists qn; by apply Hspec.
Qed.

Lemma not_stale ws q r c :
  build_q_header_map ws = Ok q -> ~ stale ws r c ->
  ~ is_data_row ws r \/ loc_of (value (ws_cell ws r 1)) <> None \/ ~ listed q c.
Proof.
  intros Hq Hn. rewrite (stale_listed _ _ _ _ Hq) in Hn.
  destruct (decide (2 <= r <= max_row ws)%nat) as [Hr|Hr]; [|by left].
  destruct (loc_of (value (ws_cell ws r 1))) as [k|] eqn:E; [right; by left|].
  right. right. intros Hl. by apply Hn.
Qed.

Lemma Frame_init w : Frame w [] (init w).
Proof.
  split; simpl.
  - intros i. split; [set_solver|]. by intros (e & [] & _).
  - done.
  - done.
  - intros i r c _. split; [|done]. by intros (e & [] & _).
Qed.

Lemma Frame_step w es st e st' :
  Inv w es st -> Frame w es st -> step st e = Ok st' ->
  Frame w (es ++ [e]) st'.
Proof.
  intros HI [F1 F2 F3 F4] Hs.
  destruct (step_spec w es st e HI) as (st0 & Hs0 & _ & Hspec).
  rewrite Hs in Hs0. injection Hs0 as <-.
  assert (i_lt : forall i, (i < length w)%nat -> (i < length (wb st))%nat).
  { intros i. by rewrite (titles_length _ _ (inv_titles _ _ _ HI)). }
  destruct (pick_sheet_for_kind w (kind e)) as [i|] eqn:Hpick.
  - destruct Hspec as (q & m & wsc & Hbq & Hbm & Hi & Hcl & Hwin & Hwout & Hcase).
    assert (target w e =
      match m !! (block e, level e, side e), q !! qnum e with
      | Some r, Some c => Some (i, r, c)
      | _, _ => None
      end) as Ht by (unfold target; by rewrite Hpick, Hbq, Hbm).
    assert (verdict w e =
      match m !! (block e, level e, side e), q !! qnum e with
      | None, _ => Some (lit "location not found in column A")
      | Some _, None => Some (lit "question number not found in header")
      | Some _, Some _ => None
      end) as Hv by (unfold verdict; by rewrite Hpick, Hbq, Hbm).
    assert (exists x, wb st' = <[i := x]> (wb st) /\
              max_row x = max_row wsc /\ max_column x = max_column wsc /\
              forall r c, target w e <> Some (i, r, c) ->
                ws_cell x r c = ws_cell wsc r c) as (x & Hwb & Hxr & Hxc & Hx).
    { destruct (m !! (block e, level e, side e)) as [r0|].
      - destruct (q !! qnum e) as [c0|].
        + destruct Hcase as (-> & _). eexists. split; [done|].
          split; [done|]. split; [done|]. intros r c Hne.
          apply ws_cell_write_ne. rewrite Ht in Hne. congruence.
        + destruct Hcase as (-> & _). by exists wsc.
      - destruct Hcase as (-> & _). by exists wsc. }
    assert (max_row wsc = max_row (w !!! i) /\
            max_column wsc = max_column (w !!! i) /\
            forall r c, last (hits w i r c es) = None ->
              (stale (w !!! i) r c -> ws_cell wsc r c = blank) /\
              (~ stale (w !!! i) r c -> ws_cell wsc r c = ws_cell (w !!! i) r c))
      as (Hwr & Hwc & Hwcell).
    { destruct (decide (i ∈ cleared st)) as [Hc|Hc].
      - rewrite (Hwin Hc). destruct (F2 i) as [-> ->]. split; [done|]. split; [done|].
        intros r c Hl. destruct (F4 i r c Hl) as [Ha Hb].
        apply F1 in Hc. split; [by apply Ha|]. intros Hn. apply Hb. by right.
      - destruct (clear_non_location_rows_spec (w !!! i) q)
          as (ws' & Hcl' & _ & Hr' & Hc' & Hcells).
        rewrite (Hwout Hc) in Hcl'. injection Hcl' as <-.
        split; [done|]. split; [done|]. intros r c _.
        destruct (Hcells r c) as [Ha Hb]. split.
        + intros Hst. apply (stale_listed _ _ _ _ Hbq) in Hst as (H1 & H2 & H3).
          by apply Ha.
        + intros Hn. apply Hb. by apply not_stale. }
    split.
    + intros j. rewrite used_snoc, Hpick, Hcl, elem_of_union, elem_of_singleton, F1.
      split.
      * intros [->|H]; [by right|by left].
      * intros [H|[= <-]]; [by right|by left].
    + intros j. destruct (decide (j = i)) as [->|Hne].
      * rewrite Hwb, list_lookup_total_insert_eq by auto. by rewrite Hxr, Hxc.
      * rewrite Hwb, list_lookup_total_insert_ne by done. apply F2.
    + rewrite skips_snoc, Hv.
      destruct (m !! (block e, level e, side e)) as [r0|].
      * destruct (q !! qnum e) as [c0|].
        -- destruct Hcase as (_ & _ & ->). by rewrite app_nil_r, F3.
        -- destruct Hcase as (_ & _ & ->). by rewrite F3.
      * destruct Hcase as (_ & _ & ->). by rewrite F3.
    + intros j r c. rewrite last_hits_snoc. case_decide as Hd; [done|]. intros Hl.
      destruct (decide (j = i)) as [->|Hne].
      * rewrite Hwb, list_lookup_total_insert_eq by auto. rewrite (Hx r c Hd).
        destruct (Hwcell r c Hl) as [Ha Hb]. split; [auto|].
        intros [Hu|Hn]; [|auto]. destruct Hu. apply used_snoc. by right.
      * rewrite Hwb, list_lookup_total_insert_ne by done.
        destruct (F4 j r c Hl) as [Ha Hb]. split.
        -- intros Hu. apply Ha. apply used_snoc in Hu as [Hu|Hu]; [done|congruence].
        -- intros [Hu|Hn]; apply Hb; [|by right].
           left. intros Hu'. apply Hu, used_snoc. by left.
  - destruct Hspec as (Hwb & Hcl & _ & Hsk).
    assert (target w e = None) as Ht by (unfold target; by rewrite Hpick).
    assert (verdict w e = Some (lit "sheet for kind '" ++ kind e ++ lit "' not found"))
      as Hv by (unfold verdict; by rewrite Hpick).
    assert (forall j, used w (es ++ [e]) j <-> used w es j) as Hu.
    { intros j. rewrite used_snoc. split; [intros [H|H]; [done|congruence]|auto]. }
    split.
    + intros j. by rewrite Hu, Hcl.
    + intros j. rewrite Hwb. apply F2.
    + by rewrite skips_snoc, Hv, Hsk, F3.
    + intros j r c. rewrite last_hits_snoc, Ht. case_decide; [done|].
      rewrite Hwb, Hu. apply F4.
Qed.

Lemma Frame_run w rest : forall es st st',
  Inv w es st -> Frame w es st -> run_entries st rest = Ok st' ->
  Frame w (es ++ rest) st'.
Proof.
  induction rest as [|e rest IH]; intros es st st' HI HF Hr; simpl in Hr.
  - injection Hr as <-. by rewrite app_nil_r.
  - destruct (Inv_step _ _ _ e HI) as (st1 & Hs & HI1 & _). rewrite Hs in Hr.
    cbn [rbind] in Hr.
    rewrite (app_assoc es [e] rest : es ++ e :: rest = (es ++ [e]) ++ rest).
    eapply IH; [done| |done]. by eapply Frame_step.
Qed.

(** The state a run ends in, with both invariants. *)
Lemma process_ends entries w :
  exists st, process entries w = Ok st /\ Inv w entries st /\ Frame w entries st /\
    written st = length (filter (fun e => is_Some (target w e)) entries).
Proof.
  unfold process.
  destruct (Inv_run w entries [] (init w) (Inv_init w)) as (st & Hr & HI & Hw).
  exists st. split; [done|]. split; [done|]. split; [|done].
  apply (Frame_run w entries [] (init w) st (Inv_init w) (Frame_init w) Hr).
Qed.

(** ** What a run reports and leaves *)



(** Where an entry resolves to: a sheet of its kind, a data row and a
    column that carries its question number. *)
Lemma target_where w e i r c :
  target w e = Some (i, r, c) ->
  pick_sheet_for_kind w (kind e) = Some i /\
  first_row (w !!! i) (block e, level e, side e) r /\
  last_col (w !!! i) (qnum e) c.
Proof.
  unfold target. destruct (pick_sheet_for_kind w (kind e)) as [j|]; [|done].
  destruct (build_row_map_spec (w !!! j)) as (m & -> & Hm).
  destruct (build_q_header_map_spec (w !!! j)) as (q & -> & Hq).
  destruct (m !! _) as [r0|] eqn:Er; [|done].
  destruct (q !! _) as [c0|] eqn:Ec; [|done].
  intros [= -> -> ->]. split; [done|]. split; [by apply Hm|by apply Hq].
Qed.

Lemma last_hits_In w i r c es e :
  last (hits w i r c es) = Some e -> In e es /\ target w e = Some (i, r, c).
Proof.
  intros Hl. apply last_Some in Hl as (l' & Hl).
  assert (e ∈ hits w i r c es) as Hin by (rewrite Hl; set_solver).
  unfold hits in Hin. apply list_elem_of_filter in Hin as [Ht Hin].
  split; [by apply list_elem_of_In|done].
Qed.

Lemma no_hit w i r c es :
  ~ used w es i \/ ~ is_data_row (w !!! i) r \/ (forall q, ~ last_col (w !!! i) q c) ->
  last (hits w i r c es) = None.
Proof.
  intros H. destruct (last (hits w i r c es)) as [e|] eqn:Hl; [|done].
  apply last_hits_In in Hl as [Hin Ht].
  apply target_where in Ht as (Hp & [Hr _] & Hc).
  destruct H as [H|[H|H]]; [destruct H; by exists e|done|by destruct (H (qnum e))].
Qed.



(** X4: what a run never touches: every cell of a sheet that is the
    sheet of no entry's kind, every cell outside the data rows (the
    header row and the rows below the last one), and every cell of a
    column whose header carries no question number. *)
Theorem untouched_cells entries w :
  exists st, process entries w = Ok st /\
    forall i r c,
      ~ used w entries i \/ ~ is_data_row (w !!! i) r \/
        (forall q, ~ last_col (w !!! i) q c) ->
      ws_cell (wb st !!! i) r c = ws_cell (w !!! i) r c.
Proof.
  destruct (process_ends entries w) as (st & Hp & HI & HF & Hw).
  exists st. split; [done|]. intros i r c H.
  apply (frame_cells _ _ _ HF); [by apply no_hit|].
  destruct H as [H|[H|H]]; [by left| |]; right; intros (H1 & H2 & q & H3);
    [done|by destruct (H q)].
Qed.

(** ** Order of the entries and a second run *)

Lemma stale_dec ws r c : stale ws r c \/ ~ stale ws r c.
Proof.
  destruct (build_q_header_map_spec ws) as (q & Hq & _).
  rewrite (stale_listed _ _ _ _ Hq).
  destruct (decide (2 <= r <= max_row ws)%nat) as [Hr|Hr]; [|right; by intros [? _]].
  destruct (loc_of (value (ws_cell ws r 1))) as [k|] eqn:E;
    [right; by intros (_ & ? & _)|].
  destruct (decide (c ∈ (map_to_list q).*2)) as [Hc|Hc].
  - left. split; [done|]. split; [done|]. by apply listed_cols.
  - right. intros (_ & _ & Hl). by apply Hc, listed_cols.
Qed.

(** Two runs on the same workbook agree at a cell when the last entry
    that resolves to it is the same and the sheet is used in both. *)
Lemma cells_agree w es1 es2 st1 st2 i r c :
  Inv w es1 st1 -> Frame w es1 st1 -> Inv w es2 st2 -> Frame w es2 st2 ->
  count <$> last (hits w i r c es1) = count <$> last (hits w i r c es2) ->
  (used w es1 i <-> used w es2 i) ->
  ws_cell (wb st1 !!! i) r c = ws_cell (wb st2 !!! i) r c.
Proof.
  intros HI1 HF1 HI2 HF2 Hl Hu.
  destruct (last (hits w i r c es1)) as [e1|] eqn:H1;
    destruct (last (hits w i r c es2)) as [e2|] eqn:H2; try done.
  - destruct (inv_cells _ _ _ HI1 _ _ _ _ H1) as [_ ->].
    destruct (inv_cells _ _ _ HI2 _ _ _ _ H2) as [_ ->].
    simpl in Hl. by injection Hl as ->.
  - destruct (frame_cells _ _ _ HF1 _ _ _ H1) as [A1 B1].
    destruct (frame_cells _ _ _ HF2 _ _ _ H2) as [A2 B2].
    destruct (decide (i ∈ cleared st1)) as [Hc|Hc].
    + apply (frame_cleared _ _ _ HF1) in Hc.
      destruct (stale_dec (w !!! i) r c) as [Hs|Hs].
      * rewrite A1, A2 by tauto. done.
      * rewrite B1, B2 by tauto. done.
    + assert (~ used w es1 i) as Hn by (by rewrite <- (frame_cleared _ _ _ HF1)).
      rewrite B1, B2 by tauto. done.
Qed.

(** X5: entries that resolve to different cells may come in any order:
    if no two entries of the report resolve to the same cell, every
    reordering of the report leaves the same cells and the same counter,
    and skips the same entries. *)
Theorem distinct_targets_commute entries entries' w :
  entries ≡ₚ entries' ->
  (forall i r c, (length (hits w i r c entries) <= 1)%nat) ->
  exists st st',
    process entries w = Ok st /\ process entries' w = Ok st' /\
    (forall i r c, ws_cell (wb st !!! i) r c = ws_cell (wb st' !!! i) r c) /\
    written st = written st' /\ skipped st ≡ₚ skipped st'.
Proof.
  intros HP H1.
  destruct (process_ends entries w) as (st & Hp & HI & HF & Hw).
  destruct (process_ends entries' w) as (st' & Hp' & HI' & HF' & Hw').
  exists st, st'. split; [done|]. split; [done|]. split; [|split].
  - intros i r c. apply (cells_agree w entries entries'); try done.
    + f_equal.
      assert (hits w i r c entries ≡ₚ hits w i r c entries') as HPh
        by (unfold hits; by rewrite HP).
      specialize (H1 i r c).
      destruct (hits w i r c entries) as [|e [|e' l]]; simpl in H1; [| |lia].
      * apply Permutation_nil_l in HPh. by rewrite <- HPh.
      * apply Permutation_singleton_l in HPh. by rewrite <- HPh.
    + unfold used. split; intros (e & Hin & Hk); exists e; (split; [|done]).
      * eapply Permutation_in; [apply HP|done].
      * eapply Permutation_in; [symmetry; apply HP|done].
  - rewrite Hw, Hw'. apply Permutation_length. by rewrite HP.
  - rewrite (frame_skipped _ _ _ HF), (frame_skipped _ _ _ HF').
    unfold skips. by rewrite HP.
Qed.

Lemma distinct_targets_commute_witness :
  exists st st',
    process [demo_entry "BW" "A" 4 12; demo_entry "SR" "A" 4 3] [demo_sheet] = Ok st /\
    process [demo_entry "SR" "A" 4 3; demo_entry "BW" "A" 4 12] [demo_sheet] = Ok st' /\
    (forall i r c, ws_cell (wb st !!! i) r c = ws_cell (wb st' !!! i) r c) /\
    written st = written st' /\ skipped st ≡ₚ skipped st'.
Proof.
  apply distinct_targets_commute.
  - apply perm_swap.
  - intros i r c. unfold hits.
    assert (target [demo_sheet] (demo_entry "SR" "A" 4 3) = None) as E
      by (vm_compute; reflexivity).
    rewrite filter_cons, (filter_cons_False _ (demo_entry "SR" "A" 4 3))
      by (rewrite E; discriminate).
    rewrite filter_nil. case_decide; simpl; lia.
Defined.

(** The two indices read a sheet through column A and row 1 alone. *)
Lemma row_loop_ext ws1 ws2 rows :
  (forall r, ws_cell ws1 r 1 = ws_cell ws2 r 1) ->
  forall rmap, row_loop ws1 rows rmap = row_loop ws2 rows rmap.
Proof.
  intros H. induction rows as [|r rows IH]; intros rmap; [done|].
  simpl. rewrite H. destruct (parse_loc _) as [[k|]|]; simpl; try done.
  destruct (rmap !! k); apply IH.
Qed.

Lemma build_row_map_ext ws1 ws2 :
  max_row ws1 = max_row ws2 ->
  (forall r, ws_cell ws1 r 1 = ws_cell ws2 r 1) ->
  build_row_map ws1 = build_row_map ws2.
Proof.
  intros Hr H. unfold build_row_map, data_rows. rewrite Hr. by apply row_loop_ext.
Qed.

Lemma build_q_header_map_ext ws1 ws2 :
  max_column ws1 = max_column ws2 ->
  (forall c, ws_cell ws1 1 c = ws_cell ws2 1 c) ->
  build_q_header_map ws1 = build_q_header_map ws2.
Proof.
  intros Hc H. unfold build_q_header_map, ws_row. rewrite Hc. f_equal.
  apply map_ext. intros c. apply H.
Qed.

Lemma target_ext w1 w2 e :
  map title w1 = map title w2 ->
  (forall i, build_row_map (w1 !!! i) = build_row_map (w2 !!! i)) ->
  (forall i, build_q_header_map (w1 !!! i) = build_q_header_map (w2 !!! i)) ->
  target w1 e = target w2 e /\ verdict w1 e = verdict w2 e.
Proof.
  intros Ht Hr Hq. unfold target, verdict. rewrite (pick_sheet_titles _ _ _ Ht).
  destruct (pick_sheet_for_kind w2 (kind e)) as [i|]; [|done].
  by rewrite Hr, Hq.
Qed.

(** X6: a second run is idle.  On a workbook whose column A carries no
    question number in the header, running the same report on the
    workbook the first run left changes no cell, and it writes and skips
    the same entries. *)
Theorem rerun_changes_nothing entries w :
  (forall i q, ~ last_col (w !!! i) q 1) ->
  exists st st',
    process entries w = Ok st /\ process entries (wb st) = Ok st' /\
    (forall i r c, ws_cell (wb st' !!! i) r c = ws_cell (wb st !!! i) r c) /\
    written st' = written st /\ skipped st' = skipped st.
Proof.
  intros HA.
  destruct (process_ends entries w) as (st & Hp & HI & HF & Hw).
  destruct (process_ends entries (wb st)) as (st' & Hp' & HI' & HF' & Hw').
  exists st, st'. split; [done|]. split; [done|].
  pose proof (inv_titles _ _ _ HI) as Ht.
  assert (forall i r c,
    ~ is_data_row (w !!! i) r \/ (forall q, ~ last_col (w !!! i) q c) ->
    ws_cell (wb st !!! i) r c = ws_cell (w !!! i) r c) as Hsame.
  { intros i r c H. apply (frame_cells _ _ _ HF); [apply no_hit; tauto|].
    right. intros (H1 & H2 & q & H3). destruct H as [H|H]; [done|by destruct (H q)]. }
  assert (forall i, build_row_map (wb st !!! i) = build_row_map (w !!! i)) as Hrm.
  { intros i. apply build_row_map_ext; [apply (frame_dims _ _ _ HF)|].
    intros r. apply Hsame. right. apply HA. }
  assert (forall i, build_q_header_map (wb st !!! i) = build_q_header_map (w !!! i))
    as Hqm.
  { intros i. apply build_q_header_map_ext; [apply (frame_dims _ _ _ HF)|].
    intros c. apply Hsame. left. unfold is_data_row. lia. }
  assert (forall e, target (wb st) e = target w e /\ verdict (wb st) e = verdict w e)
    as Hte by (intros e; by apply target_ext).
  assert (forall i r c, hits (wb st) i r c entries = hits w i r c entries) as Hh.
  { intros i r c. unfold hits. apply list_filter_iff. intros e.
    by rewrite (proj1 (Hte e)). }
  assert (forall i, used (wb st) entries i <-> used w entries i) as Hu.
  { intros i. unfold used. by setoid_rewrite (pick_sheet_titles _ _ _ Ht). }
  split; [|split].
  - intros i r c.
    destruct (last (hits w i r c entries)) as [e|] eqn:Hl.
    + destruct (inv_cells _ _ _ HI _ _ _ _ Hl) as [_ ->].
      rewrite <- Hh in Hl. by destruct (inv_cells _ _ _ HI' _ _ _ _ Hl) as [_ ->].
    + pose proof Hl as Hl'. rewrite <- Hh in Hl'.
      destruct (frame_cells _ _ _ HF _ _ _ Hl) as [A1 B1].
      destruct (frame_cells _ _ _ HF' _ _ _ Hl') as [A2 B2].
      destruct (decide (i ∈ cleared st)) as [Hc|Hc].
      * apply (frame_cleared _ _ _ HF) in Hc.
        destruct (stale_dec (wb st !!! i) r c) as [Hs|Hs].
        -- rewrite A2 by (by try apply Hu).
           symmetry. apply A1; [done|].
           destruct Hs as (H1 & H2 & q & H3 & H4 & H5).
           destruct (frame_dims _ _ _ HF i) as [Hmr Hmc].
           split; [unfold is_data_row in *; lia|].
           split.
           { rewrite <- H2. f_equal. f_equal. symmetry. apply Hsame. right. apply HA. }
           exists q. split; [lia|]. split.
           { rewrite <- H4. f_equal. symmetry. apply Hsame. left.
             unfold is_data_row. lia. }
           intros j Hj. rewrite <- Hmc in Hj.
           rewrite <- (Hsame i 1%nat j) by (left; unfold is_data_row; lia).
           by apply H5.
        -- apply B2. by right.
      * apply B2. left. rewrite Hu. by rewrite <- (frame_cleared _ _ _ HF).
  - rewrite Hw, Hw'. f_equal. apply list_filter_iff. intros e.
    by rewrite (proj1 (Hte e)).
  - rewrite (frame_skipped _ _ _ HF), (frame_skipped _ _ _ HF').
    unfold skips. clear -Hte. induction entries as [|e es IH]; [done|].
    cbn [omap list_omap]. rewrite (proj2 (Hte e)).
    destruct (verdict w e); simpl; [f_equal|]; apply IH.
Qed.

Lemma rerun_changes_nothing_witness :
  exists st st',
    process [demo_entry "BW" "A" 4 12] [demo_sheet] = Ok st /\
    process [demo_entry "BW" "A" 4 12] (wb st) = Ok st' /\
    (forall i r c, ws_cell (wb st' !!! i) r c = ws_cell (wb st !!! i) r c) /\
    written st' = written st /\ skipped st' = skipped st.
Proof.
  apply rerun_changes_nothing.
  intros i q (_ & H & _). destruct i as [|i]; vm_compute in H; discriminate H.
Defined.

(** ** Clearing twice *)




(** ** Header texts *)













(** ** Case *)




















(** ** Edges of the sheet choice *)

Lemma pick_from_nil wss : forall i, pick_from [] i wss = None.
Proof. induction wss as [|ws wss IH]; intros i; [done|]. simpl. apply IH. Qed.

Lemma pick_from_lower_titles aliases : forall wb1 wb2 i,
  map (fun ws => lower (title ws)) wb1 = map (fun ws => lower (title ws)) wb2 ->
  pick_from aliases i wb1 = pick_from aliases i wb2.
Proof.
  induction wb1 as [|ws1 wb1 IH]; intros [|ws2 wb2] i E; try done.
  simpl in *. injection E as E1 E2. rewrite E1. by rewrite (IH wb2 (S i) E2).
Qed.

Lemma pick_from_app aliases more : forall wss i j,
  pick_from aliases i wss = Some j -> pick_from aliases i (wss ++ more) = Some j.
Proof.
  induction wss as [|ws wss IH]; intros i j; [done|]. simpl.
  destruct (existsb _ _); [done|]. apply IH.
Qed.

(** X10: the edges of the sheet choice.  A kind other than "BW" and
    "SR" (in exactly this spelling: the table of aliases is looked up
    by the kind as it is) has no sheet in any workbook; a sheet that is
    chosen is one of the workbook; the choice depends on the titles
    only up to case; and sheets added after the others do not change a
    choice that was made. *)
Theorem sheet_choice_edges :
  (forall wb kind, kind <> lit "BW" -> kind <> lit "SR" ->
     pick_sheet_for_kind wb kind = None) /\
  (forall wb kind i, pick_sheet_for_kind wb kind = Some i -> (i < length wb)%nat) /\
  (forall wb1 wb2 kind,
     map (fun ws => lower (title ws)) wb1 = map (fun ws => lower (title ws)) wb2 ->
     pick_sheet_for_kind wb1 kind = pick_sheet_for_kind wb2 kind) /\
  (forall wb more kind i,
     pick_sheet_for_kind wb kind = Some i ->
     pick_sheet_for_kind (wb ++ more) kind = Some i).
Proof.
  split; [|split; [|split]].
  - intros wb kind H1 H2. unfold pick_sheet_for_kind, SHEET_ALIASES.
    rewrite !decide_False by done. apply pick_from_nil.
  - intros wb kind i. apply pick_sheet_lt.
  - intros wb1 wb2 kind E. by apply pick_from_lower_titles.
  - intros wb more kind i. apply pick_from_app.
Qed.

Lemma sheet_choice_edges_witness :
  pick_sheet_for_kind [demo_sheet; demo_header_sheet] (lit "bw") = None /\
  (0 < length [demo_sheet; demo_header_sheet])%nat /\
  pick_sheet_for_kind [demo_sheet] (lit "BW") =
    pick_sheet_for_kind [set_cell demo_sheet 9 9 blank] (lit "BW") /\
  pick_sheet_for_kind ([demo_sheet] ++ [demo_header_sheet]) (lit "BW") = Some 0%nat.
Proof.
  destruct sheet_choice_edges as (H1 & H2 & H3 & H4).
  split; [|split; [|split]].
  - apply H1; discriminate.
  - apply (H2 _ (lit "BW")). vm_compute. reflexivity.
  - apply H3. reflexivity.
  - apply H4. vm_compute. reflexivity.
Defined.

(** ** The shape of a label *)


























(** ** From the report to the workbook *)





